(** * Adaptive interaction style: the rule matcher of [app/decision.py]

    A shallow embedding of [app/models.py] and [app/decision.py], and the
    properties of [decide_style] stated against it.

    Python values are dynamically typed, so the configuration is embedded as
    a tree of YAML values ([pyval]) and every operation that can raise in
    Python returns a [result].  The process-wide state that [get_config]
    touches (the file system and the [functools.lru_cache] slot) is threaded
    explicitly.  [Module Heap] embeds the same functions over an object
    store, for the properties that speak about the arguments after a call;
    [decide_style_refines] relates the two embeddings. *)

From stdpp Require Import base option list strings gmap.
From Stdlib Require Import ZArith.

Open Scope string_scope.
Open Scope list_scope.
Open Scope Z_scope.

(** ** app/models.py *)

Module KnowledgeLevel.
Inductive t := novice | intermediate | expert.
Definition value (x : t) : string :=
  match x with
  | novice => "novice" | intermediate => "intermediate" | expert => "expert"
  end.
End KnowledgeLevel.

Module Emotion.
Inductive t := positive | neutral | negative.
Definition value (x : t) : string :=
  match x with
  | positive => "positive" | neutral => "neutral" | negative => "negative"
  end.
End Emotion.

Module GoalClarity.
Inductive t := clear | ambiguous.
Definition value (x : t) : string :=
  match x with clear => "clear" | ambiguous => "ambiguous" end.
End GoalClarity.

Module Urgency.
Inductive t := high | normal | low.
Definition value (x : t) : string :=
  match x with high => "high" | normal => "normal" | low => "low" end.
End Urgency.

Module Stakes.
Inductive t := high | medium | low.
Definition value (x : t) : string :=
  match x with high => "high" | medium => "medium" | low => "low" end.
End Stakes.

(** [InteractionContext]: five optional fields, each defaulting to [None]. *)
Record InteractionContext := {
  knowledge : option KnowledgeLevel.t;
  emotion : option Emotion.t;
  clarity : option GoalClarity.t;
  urgency : option Urgency.t;
  stakes : option Stakes.t
}.

Record StyleDecision := {
  style : string;
  matched_rule_index : Z
}.

(** The value of a named attribute of a context, as the [str] the enum
    member is; [None] for an unset field and for any other name. *)
Definition attribute_value (c : InteractionContext) (name : string) : option string :=
  if decide (name = "knowledge") then KnowledgeLevel.value <$> knowledge c
  else if decide (name = "emotion") then Emotion.value <$> emotion c
  else if decide (name = "clarity") then GoalClarity.value <$> clarity c
  else if decide (name = "urgency") then Urgency.value <$> urgency c
  else if decide (name = "stakes") then Stakes.value <$> stakes c
  else None.

(** [context.model_dump(exclude_none=True)]: a fresh dict holding the fields
    that are set, in declaration order.  The members of a [str]-mixin enum
    are [str] instances; the dict is embedded with their string values. *)
Definition dump_field {A} (name : string) (value : A → string)
    (field : option A) (d : gmap string string) : gmap string string :=
  match field with
  | Some x => <[name := value x]> d
  | None => d
  end.

Definition model_dump (c : InteractionContext) : gmap string string :=
  dump_field "stakes" Stakes.value (stakes c)
    (dump_field "urgency" Urgency.value (urgency c)
      (dump_field "clarity" GoalClarity.value (clarity c)
        (dump_field "emotion" Emotion.value (emotion c)
          (dump_field "knowledge" KnowledgeLevel.value (knowledge c) ∅)))).

(** ** Python values and exceptions *)

#[local] Set Warnings "-register-all".

(** The values [yaml.safe_load] builds for a rules file.  A dict is kept as
    the list of its items in insertion order, which is the order
    [dict.items()] iterates in; keys are the [str] keys of the annotation
    [Dict[str, Any]]. *)
Inductive pyval :=
| PNone
| PBool (b : bool)
| PInt (n : Z)
| PStr (s : string)
| PList (xs : list pyval)
| PDict (kvs : list (string * pyval)).

Inductive exn :=
| FileNotFoundError
| OSError
| YAMLError
| AttributeError
| TypeError
| ValidationError
| SystemError.

Inductive result (A : Type) :=
| Ok (a : A)
| Raise (e : exn).
Arguments Ok {A} a.
Arguments Raise {A} e.

(** An exception propagates; [x ← r; k] is stdpp's notation for [mbind]. *)
#[export] Instance result_bind : MBind result := λ A B f r,
  match r with
  | Ok a => f a
  | Raise e => Raise e
  end.

(** Python truth value, as [or] tests it. *)
Definition truthy (v : pyval) : bool :=
  match v with
  | PNone => false
  | PBool b => b
  | PInt n => negb (n =? 0)
  | PStr s => negb (String.eqb s "")
  | PList xs => match xs with [] => false | _ :: _ => true end
  | PDict kvs => match kvs with [] => false | _ :: _ => true end
  end.

(** [a or b]. *)
Definition py_or (a b : pyval) : pyval := if truthy a then a else b.

Fixpoint assoc {V} (key : string) (kvs : list (string * V)) : option V :=
  match kvs with
  | [] => None
  | (k, v) :: rest => if String.eqb k key then Some v else assoc key rest
  end.

(** [obj.get(key, default)]: only a dict has the method. *)
Definition py_get (obj : pyval) (key : string) (dflt : pyval) : result pyval :=
  match obj with
  | PDict kvs => Ok (default dflt (assoc key kvs))
  | _ => Raise AttributeError
  end.

(** [obj.items()]. *)
Definition py_items (obj : pyval) : result (list (string * pyval)) :=
  match obj with
  | PDict kvs => Ok kvs
  | _ => Raise AttributeError
  end.

(** The elements [enumerate(obj)] yields: those of a list, the keys of a
    dict, the characters of a string; anything else is not iterable. *)
Definition py_iter (obj : pyval) : result (list pyval) :=
  match obj with
  | PList xs => Ok xs
  | PDict kvs => Ok (PStr ∘ fst <$> kvs)
  | PStr s => Ok ((λ c, PStr (String c EmptyString)) <$> String.list_ascii_of_string s)
  | _ => Raise TypeError
  end.

(** [ctx_dict.get(key) == value].  The left side is [None] or an enum member
    that is a [str]; [None] equals only [None], a [str] only an equal [str]. *)
Definition py_eq (got : option string) (value : pyval) : bool :=
  match got, value with
  | None, PNone => true
  | Some s, PStr s' => bool_decide (s = s')
  | _, _ => false
  end.

(** [StyleDecision(style=..., matched_rule_index=idx)]: pydantic validates
    the field [style: str]; the index is always an [int] here. *)
Definition new_StyleDecision (style : pyval) (idx : Z) : result StyleDecision :=
  match style with
  | PStr s => Ok {| style := s; matched_rule_index := idx |}
  | _ => Raise ValidationError
  end.

(** ** app/decision.py *)

(** The file system as [_load_config] sees it.  [yaml.safe_load] is an
    external parser: a readable file is represented by what the parser makes
    of it, a YAML error or the value it builds. *)
Inductive file_state :=
| Absent
| Unreadable
| Malformed
| Document (doc : pyval).

Definition Path := string.

Definition DEFAULT_CONFIG_PATH : Path := "configs/style_rules.yaml".

(** The state outside the arguments of [decide_style]: the files, and the
    slot of the [lru_cache] around [get_config]. *)
Record world := {
  files : Path → file_state;
  cache : option pyval
}.

Definition _load_config (fs : Path → file_state) (path : option Path) : result pyval :=
  let cfg_path := default DEFAULT_CONFIG_PATH path in
  match fs cfg_path with
  | Absent => Raise FileNotFoundError
  | Unreadable => Raise OSError
  | Malformed => Raise YAMLError
  | Document doc => Ok doc
  end.

(** [functools.lru_cache] on a function without arguments: the first value
    returned is kept and returned from then on; a call that raises stores
    nothing. *)
Definition get_config (w : world) : result pyval * world :=
  match cache w with
  | Some cfg => (Ok cfg, w)
  | None =>
      match _load_config (files w) None with
      | Ok cfg => (Ok cfg, {| files := files w; cache := Some cfg |})
      | Raise e => (Raise e, w)
      end
  end.

(** Line 40: [rule.get("conditions", {}) or {}], then its [.items()]. *)
Definition rule_conds (rule : pyval) : result (list (string * pyval)) :=
  c ← py_get rule "conditions" (PDict []);
  py_items (py_or c (PDict [])).

(** Line 42: [all(ctx_dict.get(key) == value for key, value in conds.items())]. *)
Definition conds_match (ctx_dict : gmap string string)
    (conds : list (string * pyval)) : bool :=
  forallb (λ kv, py_eq (ctx_dict !! kv.1) kv.2) conds.

Definition rule_matches (ctx_dict : gmap string string) (rule : pyval) : result bool :=
  conds ← rule_conds rule;
  Ok (conds_match ctx_dict conds).

(** Lines 39-47: the loop over [enumerate(rules)] and the fallback. *)
Fixpoint decide_loop (ctx_dict : gmap string string) (idx : Z)
    (rules : list pyval) : result StyleDecision :=
  match rules with
  | [] => new_StyleDecision (PStr "hybrid") (-1)
  | rule :: rest =>
      hit ← rule_matches ctx_dict rule;
      if hit : bool then
        style ← py_get rule "style" (PStr "hybrid");
        new_StyleDecision style idx
      else decide_loop ctx_dict (idx + 1) rest
  end.

(** [decide_style(context, config=None)].  [config or get_config()] calls
    [get_config] when [config] is [None] or an empty dict. *)
Definition decide_style (context : InteractionContext) (config : pyval)
    (w : world) : result StyleDecision * world :=
  let (cfg, w') := if truthy config then (Ok config, w) else get_config w in
  (c ← cfg;
   rules ← py_get c "strategies" (PList []);
   let ctx_dict := model_dump context in
   items ← py_iter rules;
   decide_loop ctx_dict 0 items, w').

(** ** Reference semantics

    Python passes objects by reference, and a callee can mutate what it is
    handed.  To speak about the arguments after a call, the same code is
    embedded a second time over an explicit object store: dicts and lists
    are objects at locations, a value is an immediate or a reference, and
    every [{}], [[]] and [yaml.safe_load] allocates.  The model instances
    live in a table of their own, as [decide_style] takes its context by the
    annotation [InteractionContext].  [SystemError] stands for a dangling
    reference, which no Python state has. *)

Module Heap.

Definition loc := nat.

Inductive val :=
| VNone
| VBool (b : bool)
| VInt (n : Z)
| VStr (s : string)
| VRef (l : loc).

Inductive object :=
| ODict (items : list (string * val))
| OList (elems : list val).

Record state := {
  objects : list object;
  contexts : list InteractionContext;
  files : Path → file_state;
  cache : option val
}.

(** State and exceptions; an exception leaves the store as it was when it
    was raised. *)
Definition M (A : Type) : Type := state → result A * state.

Definition ret {A} (a : A) : M A := λ s, (Ok a, s).

Definition raise {A} (e : exn) : M A := λ s, (Raise e, s).

Definition bind {A B} (m : M A) (f : A → M B) : M B := λ s,
  match m s with
  | (Ok a, s') => f a s'
  | (Raise e, s') => (Raise e, s')
  end.

#[global] Instance M_bind : MBind M := λ A B f m, bind m f.

(** A new object, at the first free location. *)
Definition alloc (o : object) : M val := λ s,
  (Ok (VRef (length (objects s))),
   {| objects := objects s ++ [o]; contexts := contexts s;
      files := files s; cache := cache s |}).

(** The object a value refers to; [None] for an immediate. *)
Definition deref (v : val) : M (option object) := λ s,
  match v with
  | VRef l =>
      match objects s !! l with
      | Some o => (Ok (Some o), s)
      | None => (Raise SystemError, s)
      end
  | _ => (Ok None, s)
  end.

Definition truthy (v : val) : M bool :=
  o ← deref v;
  ret match v, o with
      | VNone, _ => false
      | VBool b, _ => b
      | VInt n, _ => negb (n =? 0)
      | VStr s, _ => negb (String.eqb s "")
      | VRef _, Some (ODict []) | VRef _, Some (OList []) => false
      | VRef _, _ => true
      end.

(** [obj.get(key, default)]: the method is looked up first, then the
    default argument is evaluated, then the dict is read. *)
Definition py_get (obj : val) (key : string) (dflt : M val) : M val :=
  o ← deref obj;
  match o with
  | Some (ODict items) => d ← dflt; ret (default d (assoc key items))
  | _ => raise AttributeError
  end.

Definition py_items (obj : val) : M (list (string * val)) :=
  o ← deref obj;
  match o with
  | Some (ODict items) => ret items
  | _ => raise AttributeError
  end.

Definition py_iter (obj : val) : M (list val) :=
  o ← deref obj;
  match obj, o with
  | _, Some (OList elems) => ret elems
  | _, Some (ODict items) => ret (VStr ∘ fst <$> items)
  | VStr s, _ =>
      ret ((λ c, VStr (String c EmptyString)) <$> String.list_ascii_of_string s)
  | _, _ => raise TypeError
  end.

(** [ctx_dict.get(key) == value]: a [str] or [None] on the left never
    equals a dict or a list. *)
Definition py_eq (got : option string) (value : val) : bool :=
  match got, value with
  | None, VNone => true
  | Some s, VStr s' => bool_decide (s = s')
  | _, _ => false
  end.

Definition new_StyleDecision (style : val) (idx : Z) : M StyleDecision :=
  match style with
  | VStr s => ret {| style := s; matched_rule_index := idx |}
  | _ => raise ValidationError
  end.

(** [context.model_dump(exclude_none=True)] reads the model instance and
    builds a fresh dict, which stays local to the call. *)
Definition model_dump (context : nat) : M (gmap string string) := λ s,
  match contexts s !! context with
  | Some c => (Ok (model_dump c), s)
  | None => (Raise SystemError, s)
  end.

(** The objects [yaml.safe_load] constructs for a document: the children
    first, left to right, then the container that holds them. *)
Fixpoint build_all {A B} (f : A → list object → B * list object)
    (xs : list A) (h : list object) : list B * list object :=
  match xs with
  | [] => ([], h)
  | x :: xs' =>
      let '(y, h1) := f x h in
      let '(ys, h2) := build_all f xs' h1 in
      (y :: ys, h2)
  end.

Fixpoint build (p : pyval) (h : list object) : val * list object :=
  match p with
  | PNone => (VNone, h)
  | PBool b => (VBool b, h)
  | PInt n => (VInt n, h)
  | PStr s => (VStr s, h)
  | PList ps =>
      let '(vs, h') := build_all build ps h in
      (VRef (length h'), h' ++ [OList vs])
  | PDict kps =>
      let '(kvs, h') :=
        build_all (λ kp h, let '(v, h1) := build kp.2 h in ((kp.1, v), h1))
          kps h in
      (VRef (length h'), h' ++ [ODict kvs])
  end.

Definition get_config : M val := λ s,
  match cache s with
  | Some cfg => (Ok cfg, s)
  | None =>
      match _load_config (files s) None with
      | Ok doc =>
          let '(cfg, h) := build doc (objects s) in
          (Ok cfg, {| objects := h; contexts := contexts s;
                      files := files s; cache := Some cfg |})
      | Raise e => (Raise e, s)
      end
  end.

(** Line 40: both [{}] are evaluated where Python evaluates them, the
    second only when the entry found is false. *)
Definition rule_conds (rule : val) : M (list (string * val)) :=
  c ← py_get rule "conditions" (alloc (ODict []));
  t ← truthy c;
  conds ← (if t : bool then ret c else alloc (ODict []));
  py_items conds.

Definition rule_matches (ctx_dict : gmap string string) (rule : val) : M bool :=
  conds ← rule_conds rule;
  ret (forallb (λ kv, py_eq (ctx_dict !! kv.1) kv.2) conds).

Fixpoint decide_loop (ctx_dict : gmap string string) (idx : Z)
    (rules : list val) : M StyleDecision :=
  match rules with
  | [] => new_StyleDecision (VStr "hybrid") (-1)
  | rule :: rest =>
      hit ← rule_matches ctx_dict rule;
      if hit : bool then
        style ← py_get rule "style" (ret (VStr "hybrid"));
        new_StyleDecision style idx
      else decide_loop ctx_dict (idx + 1) rest
  end.

Definition decide_style (context : nat) (config : val) : M StyleDecision :=
  t ← truthy config;
  cfg ← (if t : bool then ret config else get_config);
  rules ← py_get cfg "strategies" (alloc (OList []));
  ctx_dict ← model_dump context;
  items ← py_iter rules;
  decide_loop ctx_dict 0 items.

(** [v] in the store [h] is the value tree [p]. *)
Inductive repr (h : list object) : val → pyval → Prop :=
| repr_none : repr h VNone PNone
| repr_bool b : repr h (VBool b) (PBool b)
| repr_int n : repr h (VInt n) (PInt n)
| repr_str s : repr h (VStr s) (PStr s)
| repr_list l vs ps :
    h !! l = Some (OList vs) →
    Forall2 (repr h) vs ps →
    repr h (VRef l) (PList ps)
| repr_dict l kvs kps :
    h !! l = Some (ODict kvs) →
    Forall2 (λ kv kp, kv.1 = kp.1 ∧ repr h kv.2 kp.2) kvs kps →
    repr h (VRef l) (PDict kps).

(** [s'] is [s] with more objects: the model instances, the files and
    every object of [s] are as they were. *)
Definition extends (s s' : state) : Prop :=
  (∃ new, objects s' = objects s ++ new)
  ∧ contexts s' = contexts s
  ∧ files s' = files s.

(** A computation that only reads and allocates. *)
Definition frames {A} (m : M A) : Prop := ∀ s, extends s (m s).2.

(** A computation that leaves the [lru_cache] slot alone. *)
Definition keeps_cache {A} (m : M A) : Prop := ∀ s, cache (m s).2 = cache s.

End Heap.

(** The state outside the arguments, seen through [Heap.repr]: the same
    files, and a cache slot that holds the same configuration, if any. *)
Definition world_repr (s : Heap.state) (w : world) : Prop :=
  Heap.files s = files w
  ∧ option_Forall2 (Heap.repr (Heap.objects s)) (Heap.cache s) (cache w).

(** ** Vocabulary of the properties *)

(** Line 43: [rule.get("style", "hybrid")]. *)
Definition rule_style (rule : pyval) : result pyval :=
  py_get rule "style" (PStr "hybrid").

(** [config] is a dict whose ["strategies"] entry is the list [rules]:
    the rule list is supplied by the caller. *)
Definition supplies (config : pyval) (rules : list pyval) : Prop :=
  ∃ kvs, config = PDict kvs ∧ assoc "strategies" kvs = Some (PList rules).

(** A rule record as the loader hands it over: a dict whose ["conditions"]
    entry is missing, null or a mapping, and whose ["style"] entry is a
    string or missing (line 43 then supplies the default label). *)
Definition rule_record (rule : pyval) : bool :=
  match rule with
  | PDict kvs =>
      match assoc "conditions" kvs with
      | None | Some PNone | Some (PDict _) => true
      | Some _ => false
      end
      && match assoc "style" kvs with
         | None | Some (PStr _) => true
         | Some _ => false
         end
  | _ => false
  end.

(** The label a rule record yields when it is selected. *)
Definition rule_label (rule : pyval) : string :=
  match rule_style rule with
  | Ok (PStr s) => s
  | _ => "hybrid"
  end.

(** ** A sample rule list

    The scenarios of [tests/test_decision.py], with a rule list that
    produces the styles the tests expect. *)

Definition rule (conds : list (string * pyval)) (label : string) : pyval :=
  PDict [("conditions", PDict conds); ("style", PStr label)].

Definition sample_rules : list pyval := [
  rule [("emotion", PStr "negative")] "reassuring_explanatory";
  rule [("knowledge", PStr "novice")] "explanatory";
  rule [("knowledge", PStr "expert"); ("clarity", PStr "clear");
        ("urgency", PStr "normal")] "concise";
  rule [("clarity", PStr "ambiguous"); ("emotion", PStr "positive");
        ("urgency", PStr "low")] "invitational"
].

Definition sample_config : pyval := PDict [("strategies", PList sample_rules)].

Definition no_context : InteractionContext :=
  {| knowledge := None; emotion := None; clarity := None;
     urgency := None; stakes := None |}.

Definition no_files : world := {| files := λ _, Absent; cache := None |}.

Definition expert_context : InteractionContext :=
  {| knowledge := Some KnowledgeLevel.expert; emotion := None;
     clarity := Some GoalClarity.clear; urgency := Some Urgency.normal;
     stakes := None |}.

Definition expert_conds : list (string * pyval) :=
  [("knowledge", PStr "expert"); ("clarity", PStr "clear");
   ("urgency", PStr "normal")].

Definition novice_negative : InteractionContext :=
  {| knowledge := Some KnowledgeLevel.novice; emotion := Some Emotion.negative;
     clarity := None; urgency := None; stakes := None |}.

(** A rules file whose only entry has no style label, and a world that
    holds it under the default path. *)
Definition unlabelled_doc : pyval :=
  PDict [("strategies", PList [PDict [("conditions", PDict [])]])].

Definition unlabelled_world : world :=
  {| files := λ _, Document unlabelled_doc; cache := None |}.

Definition null_rule : pyval :=
  PDict [("conditions", PNone); ("style", PStr "plain")].

(** The sample configuration as [yaml.safe_load] builds it in an empty
    store, with two model instances and no file. *)
Definition sample_state : Heap.state :=
  {| Heap.objects := (Heap.build sample_config []).2;
     Heap.contexts := [expert_context; no_context];
     Heap.files := λ _, Absent;
     Heap.cache := None |}.

Definition sample_ref : Heap.val := (Heap.build sample_config []).1.

(** ** app/main.py *)

(** [decide_endpoint(context)]: [decide_style(context)], the [config]
    argument left to its default [None].  The request has been validated
    into an [InteractionContext] before the handler runs. *)
Definition decide_endpoint (context : InteractionContext) (w : world)
    : result StyleDecision * world :=
  decide_style context PNone w.

(** ** Vocabulary of the further properties *)

(** The members of each enum, in definition order. *)
Definition knowledge_levels : list KnowledgeLevel.t :=
  [KnowledgeLevel.novice; KnowledgeLevel.intermediate; KnowledgeLevel.expert].

Definition emotions : list Emotion.t :=
  [Emotion.positive; Emotion.neutral; Emotion.negative].

Definition goal_clarities : list GoalClarity.t :=
  [GoalClarity.clear; GoalClarity.ambiguous].

Definition urgencies : list Urgency.t :=
  [Urgency.high; Urgency.normal; Urgency.low].

Definition stakes_levels : list Stakes.t :=
  [Stakes.high; Stakes.medium; Stakes.low].

(** The strings a named attribute can hold; none for any other name. *)
Definition attribute_values (name : string) : list string :=
  if decide (name = "knowledge") then KnowledgeLevel.value <$> knowledge_levels
  else if decide (name = "emotion") then Emotion.value <$> emotions
  else if decide (name = "clarity") then GoalClarity.value <$> goal_clarities
  else if decide (name = "urgency") then Urgency.value <$> urgencies
  else if decide (name = "stakes") then Stakes.value <$> stakes_levels
  else [].

(** Lookup of an enum member by value, as [KnowledgeLevel("novice")] does. *)
Definition enum_lookup {A} (members : list A) (value : A → string)
    (s : string) : option A :=
  List.find (λ x, bool_decide (value x = s)) members.

(** The member a constraint mapping requires for an attribute, if any. *)
Definition required {A} (members : list A) (value : A → string)
    (name : string) (conds : list (string * pyval)) : option A :=
  match assoc name conds with
  | Some (PStr s) => enum_lookup members value s
  | _ => None
  end.

(** The context that sets exactly the attributes a constraint mapping
    names, each to the member required. *)
Definition context_for (conds : list (string * pyval)) : InteractionContext :=
  {| knowledge := required knowledge_levels KnowledgeLevel.value "knowledge" conds;
     emotion := required emotions Emotion.value "emotion" conds;
     clarity := required goal_clarities GoalClarity.value "clarity" conds;
     urgency := required urgencies Urgency.value "urgency" conds;
     stakes := required stakes_levels Stakes.value "stakes" conds |}.

(** The decision with its index moved one place down the list; the
    fallback index [-1] stays. *)
Definition shift_index (d : StyleDecision) : StyleDecision :=
  if decide (matched_rule_index d = -1) then d
  else {| style := style d; matched_rule_index := matched_rule_index d + 1 |}.

Definition result_map {A B} (f : A → B) (r : result A) : result B :=
  match r with
  | Ok a => Ok (f a)
  | Raise e => Raise e
  end.

(** An empty container, as [{}] and [[]] allocate. *)
Definition empty_object (o : Heap.object) : Prop :=
  o = Heap.ODict [] ∨ o = Heap.OList [].

(** A computation whose only effect on the state is to allocate empty
    containers. *)
Definition allocates_empties {A} (m : Heap.M A) : Prop :=
  ∀ s, ∃ new,
    (m s).2 = {| Heap.objects := Heap.objects s ++ new;
                 Heap.contexts := Heap.contexts s;
                 Heap.files := Heap.files s;
                 Heap.cache := Heap.cache s |}
    ∧ Forall empty_object new.

(** A world whose default file holds [doc], with nothing cached yet. *)
Definition world_with (doc : pyval) : world :=
  {| files := λ _, Document doc; cache := None |}.

(** * Properties *)

Ltac run := vm_compute; reflexivity.

Example scenario_novice :
  (decide_style
     {| knowledge := Some KnowledgeLevel.novice; emotion := None;
        clarity := None; urgency := None; stakes := None |}
     sample_config no_files).1
  = Ok {| style := "explanatory"; matched_rule_index := 1 |}.
Proof. vm_compute. reflexivity. Qed.

Example scenario_negative :
  (decide_style
     {| knowledge := None; emotion := Some Emotion.negative;
        clarity := None; urgency := None; stakes := None |}
     sample_config no_files).1
  = Ok {| style := "reassuring_explanatory"; matched_rule_index := 0 |}.
Proof. vm_compute. reflexivity. Qed.

Example scenario_expert :
  (decide_style
     {| knowledge := Some KnowledgeLevel.expert; emotion := None;
        clarity := Some GoalClarity.clear; urgency := Some Urgency.normal;
        stakes := None |}
     sample_config no_files).1
  = Ok {| style := "concise"; matched_rule_index := 2 |}.
Proof. vm_compute. reflexivity. Qed.

Example scenario_invitational :
  (decide_style
     {| knowledge := None; emotion := Some Emotion.positive;
        clarity := Some GoalClarity.ambiguous; urgency := Some Urgency.low;
        stakes := None |}
     sample_config no_files).1
  = Ok {| style := "invitational"; matched_rule_index := 3 |}.
Proof. vm_compute. reflexivity. Qed.

Example scenario_empty_context :
  (decide_style no_context sample_config no_files).1
  = Ok {| style := "hybrid"; matched_rule_index := -1 |}.
Proof. vm_compute. reflexivity. Qed.

(** An empty dict is false, so [decide_style(context, {})] does not use the
    dict it was given but loads the default file. *)
Example empty_config_loads_default :
  decide_style no_context (PDict []) no_files
  = (Raise FileNotFoundError, no_files).
Proof. reflexivity. Qed.

(** ** The context dict *)

Lemma dump_field_lookup {A} name (value : A → string) field d k :
  dump_field name value field d !! k
  = if decide (k = name) then
      match field with Some x => Some (value x) | None => d !! k end
    else d !! k.
Proof.
  unfold dump_field. destruct field as [x|].
  - rewrite lookup_insert. repeat case_decide; congruence.
  - by case_decide.
Qed.

(** [ctx_dict.get(key)] is the field of that name when it is set, and
    [None] otherwise. *)
Lemma model_dump_lookup c k : model_dump c !! k = attribute_value c k.
Proof.
  unfold model_dump, attribute_value.
  rewrite !dump_field_lookup, lookup_empty.
  repeat case_decide; subst; try discriminate;
    repeat match goal with |- context [match ?f c with _ => _ end] =>
      destruct (f c) end; reflexivity.
Qed.

(** ** The loop *)

Lemma conds_match_Forall ctx_dict conds :
  conds_match ctx_dict conds = true
  ↔ ∀ k v, (k, v) ∈ conds → py_eq (ctx_dict !! k) v = true.
Proof.
  unfold conds_match. rewrite forallb_forall. split.
  - intros H k v Hin. apply list_elem_of_In in Hin. exact (H (k, v) Hin).
  - intros H [k v] Hin. apply list_elem_of_In in Hin. exact (H k v Hin).
Qed.

Lemma rule_matches_conds ctx_dict r conds :
  rule_conds r = Ok conds →
  rule_matches ctx_dict r = Ok (conds_match ctx_dict conds).
Proof. unfold rule_matches. by intros ->. Qed.

Lemma rule_record_matches ctx_dict r :
  rule_record r = true → ∃ b, rule_matches ctx_dict r = Ok b.
Proof.
  destruct r as [| | | | |kvs]; try discriminate. cbn.
  intros [Hc _]%andb_prop. unfold rule_matches, rule_conds. cbn.
  destruct (assoc "conditions" kvs) as [[| | | | |conds]|]; try discriminate;
    cbn; try destruct conds; cbn; eauto.
Qed.

Lemma rule_record_style r :
  rule_record r = true → rule_style r = Ok (PStr (rule_label r)).
Proof.
  destruct r as [| | | | |kvs]; try discriminate. cbn.
  intros [_ Hs]%andb_prop. unfold rule_label, rule_style. cbn.
  destruct (assoc "style" kvs) as [[]|]; try discriminate; reflexivity.
Qed.

(** The loop returns at the first rule that matches, provided every rule
    before it was evaluated and did not match. *)
Lemma decide_loop_first ctx_dict rules : ∀ (i : nat) r idx,
  rules !! i = Some r →
  rule_matches ctx_dict r = Ok true →
  (∀ (m : nat) r', (m < i)%nat → rules !! m = Some r' →
     rule_matches ctx_dict r' = Ok false) →
  decide_loop ctx_dict idx rules
  = (s ← rule_style r; new_StyleDecision s (idx + Z.of_nat i)).
Proof.
  induction rules as [|r0 rest IH]; intros i r idx Hi Hr Hbefore; [done|].
  destruct i as [|i]; cbn in Hi.
  - injection Hi as ->. cbn. rewrite Hr. cbn. by rewrite Z.add_0_r.
  - cbn. rewrite (Hbefore 0%nat r0 ltac:(lia) eq_refl). cbn.
    rewrite (IH i r (idx + 1) Hi Hr).
    + by replace (idx + Z.of_nat (S i)) with (idx + 1 + Z.of_nat i) by lia.
    + intros m r' Hm Hm'. apply (Hbefore (S m) r'); [lia | done].
Qed.

(** The loop falls through when every rule was evaluated and none matched. *)
Lemma decide_loop_none ctx_dict rules : ∀ idx,
  Forall (λ r, rule_matches ctx_dict r = Ok false) rules →
  decide_loop ctx_dict idx rules
  = Ok {| style := "hybrid"; matched_rule_index := -1 |}.
Proof.
  induction rules as [|r rest IH]; intros idx H; [done|].
  inversion H as [|? ? Hr Hrest]; subst. cbn. rewrite Hr. cbn. by apply IH.
Qed.

(** With the rule list supplied, [get_config] is not called: the result is
    that of the loop and the world is left as it was. *)
Lemma decide_style_supplied context config rules w :
  supplies config rules →
  decide_style context config w
  = (decide_loop (model_dump context) 0 rules, w).
Proof.
  intros (kvs & -> & Hs). unfold decide_style.
  assert (truthy (PDict kvs) = true) as -> by (by destruct kvs).
  cbn. by rewrite Hs.
Qed.

(** The decision of the loop, read backwards: index [-1] means that every
    rule was evaluated and none matched; any other index is that of a rule
    that matched. *)
Lemma decide_loop_index ctx_dict rules : ∀ idx d,
  decide_loop ctx_dict idx rules = Ok d →
  (matched_rule_index d = -1
   ∧ Forall (λ r, rule_matches ctx_dict r = Ok false) rules)
  ∨ (∃ (k : nat) r, rules !! k = Some r
       ∧ rule_matches ctx_dict r = Ok true
       ∧ matched_rule_index d = idx + Z.of_nat k).
Proof.
  induction rules as [|r rest IH]; intros idx d H; cbn in H.
  - injection H as <-. left. by split.
  - destruct (rule_matches ctx_dict r) as [[|]|e] eqn:Hr; cbn in H; [| |done].
    + right. exists 0%nat, r. split_and!; [done..|].
      destruct (py_get r "style" (PStr "hybrid")) as [[]|]; cbn in H;
        try discriminate.
      injection H as <-. cbn. lia.
    + destruct (IH _ _ H) as [[Hd Hall]|(k & r' & Hk & Hm & Hd)].
      * left. split; [done|]. by constructor.
      * right. exists (S k), r'. split_and!; [done..|]. lia.
Qed.

(** Among rule records, the loop selects the first one that matches. *)
Lemma decide_loop_priority ctx_dict rules : ∀ (i : nat) ri idx,
  Forall (λ r, rule_record r = true) (take (S i) rules) →
  rules !! i = Some ri →
  rule_matches ctx_dict ri = Ok true →
  ∃ (k : nat) rk,
    (k ≤ i)%nat ∧ rules !! k = Some rk
    ∧ rule_matches ctx_dict rk = Ok true
    ∧ (∀ (m : nat) r, (m < k)%nat → rules !! m = Some r →
         rule_matches ctx_dict r = Ok false)
    ∧ ∀ later, decide_loop ctx_dict idx (take (S k) rules ++ later)
        = Ok {| style := rule_label rk;
                matched_rule_index := idx + Z.of_nat k |}.
Proof.
  induction rules as [|r0 rest IH]; intros i ri idx Hrec Hi Hri; [done|].
  rewrite firstn_cons in Hrec. inversion Hrec as [|? ? Hr0 Hrest]; subst.
  destruct (rule_record_matches ctx_dict r0 Hr0) as [[|] Hm0].
  - exists 0%nat, r0. split_and!; [lia|done|done|intros; lia|].
    intros later. cbn. rewrite Hm0. cbn.
    fold (rule_style r0). rewrite (rule_record_style r0 Hr0). cbn.
    by rewrite Z.add_0_r.
  - destruct i as [|i]; cbn in Hi; [congruence|].
    destruct (IH i ri (idx + 1) Hrest Hi Hri)
      as (k & rk & Hk & Hlk & Hmk & Hbefore & Hres).
    exists (S k), rk. split_and!; [lia|done|done| |].
    + intros [|m] r Hm Hr; cbn in Hr; [congruence|].
      apply (Hbefore m r); [lia|done].
    + intros later. rewrite firstn_cons. cbn. rewrite Hm0. cbn.
      rewrite Hres. do 2 f_equal. lia.
Qed.

(** What [ctx_dict.get(key) == value] decides. *)
Lemma py_eq_true got value :
  py_eq got value = true
  ↔ (got = None ∧ value = PNone) ∨ (∃ s, got = Some s ∧ value = PStr s).
Proof.
  destruct got as [s|], value as [| | |s'| |]; cbn;
    try (split; [discriminate|intros [[? ?]|(? & ? & ?)]; congruence]).
  - rewrite bool_decide_eq_true. split.
    + intros ->. right. eauto.
    + intros [[? ?]|(? & ? & ?)]; congruence.
  - split; [left|]; done.
Qed.

(** A pair with a null required value is met by a context that leaves the
    attribute unset: a rule matches as soon as every pair is met either in
    this way or by a set attribute equal to the required value. *)
Lemma match_null_unset context r conds :
  rule_conds r = Ok conds →
  (∀ k v, (k, v) ∈ conds →
     (∃ s, attribute_value context k = Some s ∧ v = PStr s)
     ∨ (attribute_value context k = None ∧ v = PNone)) →
  rule_matches (model_dump context) r = Ok true.
Proof.
  intros Hc H. rewrite (rule_matches_conds _ _ _ Hc). f_equal.
  apply conds_match_Forall. intros k v Hin.
  rewrite model_dump_lookup, py_eq_true.
  destruct (H k v Hin) as [?|?]; [by right|by left].
Qed.

(** Without a usable [config] argument and with an empty cache, the rules
    are those of the default file, which the call leaves in the cache. *)
Lemma decide_style_loaded context config w doc rules :
  truthy config = false →
  cache w = None →
  files w DEFAULT_CONFIG_PATH = Document doc →
  supplies doc rules →
  decide_style context config w
  = (decide_loop (model_dump context) 0 rules,
     {| files := files w; cache := Some doc |}).
Proof.
  intros Hf Hc Hdoc (kvs & -> & Hs).
  unfold decide_style, get_config, _load_config.
  rewrite Hf, Hc. cbn. rewrite Hdoc. cbn. by rewrite Hs.
Qed.

(** ** The object store: what a call leaves untouched *)

Section frame.

Lemma extends_refl s : Heap.extends s s.
Proof. split_and!; [|done..]. exists []. by rewrite app_nil_r. Qed.

Lemma extends_trans s1 s2 s3 :
  Heap.extends s1 s2 → Heap.extends s2 s3 → Heap.extends s1 s3.
Proof.
  intros ([n1 H1] & Hc1 & Hf1) ([n2 H2] & Hc2 & Hf2). split_and!.
  - exists (n1 ++ n2). by rewrite H2, H1, app_assoc.
  - congruence.
  - congruence.
Qed.

(** An object of the old store is found, unchanged, at the same location
    of the extended store. *)
Lemma extends_lookup s s' l o :
  Heap.extends s s' →
  Heap.objects s !! l = Some o → Heap.objects s' !! l = Some o.
Proof. intros ([new ->] & _ & _) H. by apply lookup_app_l_Some. Qed.

Lemma frames_ret {A} (a : A) : Heap.frames (Heap.ret a).
Proof. intros s. apply extends_refl. Qed.

Lemma frames_raise {A} e : Heap.frames (Heap.raise (A:=A) e).
Proof. intros s. apply extends_refl. Qed.

Lemma frames_bind {A B} (m : Heap.M A) (f : A → Heap.M B) :
  Heap.frames m → (∀ a, Heap.frames (f a)) → Heap.frames (mbind f m).
Proof.
  intros Hm Hf s. unfold mbind, Heap.M_bind, Heap.bind. specialize (Hm s).
  destruct (m s) as [[a|e] s']; cbn in *; [|done].
  eapply extends_trans; [done|]. apply Hf.
Qed.

Lemma frames_alloc o : Heap.frames (Heap.alloc o).
Proof. intros s. split_and!; cbn; eauto. Qed.

Lemma frames_deref v : Heap.frames (Heap.deref v).
Proof.
  intros s. unfold Heap.deref. destruct v; try apply extends_refl.
  destruct (Heap.objects s !! l); apply extends_refl.
Qed.

Lemma frames_model_dump c : Heap.frames (Heap.model_dump c).
Proof.
  intros s. unfold Heap.model_dump.
  destruct (Heap.contexts s !! c); apply extends_refl.
Qed.

Lemma frames_new_StyleDecision v idx : Heap.frames (Heap.new_StyleDecision v idx).
Proof. destruct v; first [apply frames_ret | apply frames_raise]. Qed.

Create HintDb frame_db.
Hint Resolve frames_ret frames_raise frames_alloc frames_deref
  frames_model_dump frames_new_StyleDecision : frame_db.

Ltac solve_frames :=
  repeat first
    [ apply frames_bind; [|intros ?]
    | progress auto with frame_db
    | match goal with
      | |- Heap.frames (match ?x with _ => _ end) => destruct x
      | |- Heap.frames (if ?x then _ else _) => destruct x
      end ].

Lemma frames_truthy v : Heap.frames (Heap.truthy v).
Proof. unfold Heap.truthy. solve_frames. Qed.

Lemma frames_py_get obj key dflt : Heap.frames dflt → Heap.frames (Heap.py_get obj key dflt).
Proof. intros Hd. unfold Heap.py_get. solve_frames. Qed.

Lemma frames_py_items obj : Heap.frames (Heap.py_items obj).
Proof. unfold Heap.py_items. solve_frames. Qed.

Lemma frames_py_iter obj : Heap.frames (Heap.py_iter obj).
Proof. unfold Heap.py_iter. solve_frames. Qed.

Hint Resolve frames_truthy frames_py_get frames_py_items frames_py_iter : frame_db.

Lemma frames_rule_matches ctx_dict rule :
  Heap.frames (Heap.rule_matches ctx_dict rule).
Proof. unfold Heap.rule_matches, Heap.rule_conds. solve_frames. Qed.

Hint Resolve frames_rule_matches : frame_db.

Lemma frames_decide_loop ctx_dict rules : ∀ idx,
  Heap.frames (Heap.decide_loop ctx_dict idx rules).
Proof.
  induction rules as [|rule rest IH]; intros idx; cbn; solve_frames.
Qed.

(** Induction over value trees, with the hypothesis for every child. *)
Lemma pyval_ind' (P : pyval → Prop) :
  P PNone → (∀ b, P (PBool b)) → (∀ n, P (PInt n)) → (∀ s, P (PStr s)) →
  (∀ xs, Forall P xs → P (PList xs)) →
  (∀ kvs, Forall (λ kv, P kv.2) kvs → P (PDict kvs)) →
  ∀ p, P p.
Proof.
  intros Hnone Hbool Hint Hstr Hlist Hdict. fix IH 1. intros [| | | |xs|kvs].
  - exact Hnone.
  - apply Hbool.
  - apply Hint.
  - apply Hstr.
  - apply Hlist. induction xs as [|x xs IHxs]; constructor; [apply IH|exact IHxs].
  - apply Hdict.
    induction kvs as [|[k v] kvs IHkvs]; constructor; [apply IH|exact IHkvs].
Qed.

Lemma build_all_extends {A B} (f : A → list Heap.object → B * list Heap.object) xs :
  Forall (λ x, ∀ h, ∃ new, (f x h).2 = h ++ new) xs →
  ∀ h, ∃ new, (Heap.build_all f xs h).2 = h ++ new.
Proof.
  induction 1 as [|x xs Hx _ IH]; intros h; cbn.
  - exists []. by rewrite app_nil_r.
  - destruct (Hx h) as [n1 H1]. destruct (f x h) as [y h1]. cbn in H1. subst h1.
    destruct (IH (h ++ n1)) as [n2 H2].
    destruct (Heap.build_all f xs (h ++ n1)) as [ys h2]. cbn in *. subst h2.
    exists (n1 ++ n2). by rewrite app_assoc.
Qed.

(** [yaml.safe_load] only allocates. *)
Lemma build_extends p : ∀ h, ∃ new, (Heap.build p h).2 = h ++ new.
Proof.
  induction p as [| | | |xs IH|kvs IH] using pyval_ind'; intros h; cbn;
    try (exists []; by rewrite app_nil_r).
  - destruct (build_all_extends Heap.build xs IH h) as [new Hnew].
    destruct (Heap.build_all Heap.build xs h) as [vs h']. cbn in *. subst h'.
    eexists. by rewrite <-app_assoc.
  - match goal with |- context [Heap.build_all ?f kvs h] =>
      destruct (build_all_extends f kvs) with (h := h) as [new Hnew];
      [|destruct (Heap.build_all f kvs h) as [kvs' h']]
    end.
    + eapply Forall_impl; [exact IH|]. intros [k v] Hv h0. cbn in *.
      destruct (Hv h0) as [new Hnew]. destruct (Heap.build v h0). cbn in *. eauto.
    + cbn in *. subst h'. eexists. by rewrite <-app_assoc.
Qed.

Lemma frames_get_config : Heap.frames Heap.get_config.
Proof.
  intros s. unfold Heap.get_config.
  destruct (Heap.cache s); [apply extends_refl|].
  destruct (_load_config (Heap.files s) None) as [doc|e]; [|apply extends_refl].
  destruct (build_extends doc (Heap.objects s)) as [new Hnew].
  destruct (Heap.build doc (Heap.objects s)) as [cfg h]. cbn in *. subst h.
  split_and!; cbn; eauto.
Qed.

Hint Resolve frames_get_config frames_decide_loop : frame_db.

(** [decide_style] only reads and allocates, whatever it is called with. *)
Lemma frames_decide_style context config :
  Heap.frames (Heap.decide_style context config).
Proof. unfold Heap.decide_style. solve_frames. Qed.

(** ** The object store: agreement with the value semantics *)

Lemma bind_ok {A B} (m : Heap.M A) (f : A → Heap.M B) s a s' :
  m s = (Ok a, s') → mbind f m s = f a s'.
Proof. unfold mbind, Heap.M_bind, Heap.bind. by intros ->. Qed.

Lemma bind_raise {A B} (m : Heap.M A) (f : A → Heap.M B) s e s' :
  m s = (Raise e, s') → mbind f m s = (Raise e, s').
Proof. unfold mbind, Heap.M_bind, Heap.bind. by intros ->. Qed.

Lemma repr_mono h new p : ∀ v, Heap.repr h v p → Heap.repr (h ++ new) v p.
Proof.
  induction p as [| | | |xs IH|kvs IH] using pyval_ind'; intros v Hv;
    inversion Hv as [| | | |l vs ps Hl Hvs|l kvs' kps Hl Hkvs]; subst;
    try constructor.
  - apply Heap.repr_list with vs; [by apply lookup_app_l_Some|].
    clear Hl Hv. induction Hvs as [|v p vs ps Hvp _ IHvs]; [constructor|].
    inversion IH; subst. constructor; auto.
  - apply Heap.repr_dict with kvs'; [by apply lookup_app_l_Some|].
    clear Hl Hv. induction Hkvs as [|kv kp kvs' kps [Hk Hvp] _ IHkvs];
      [constructor|].
    inversion IH; subst. constructor; auto.
Qed.

Lemma repr_extends s s' v p :
  Heap.extends s s' → Heap.repr (Heap.objects s) v p → Heap.repr (Heap.objects s') v p.
Proof. intros ([new ->] & _ & _). apply repr_mono. Qed.

Lemma Forall2_repr_extends s s' vs ps :
  Heap.extends s s' →
  Forall2 (Heap.repr (Heap.objects s)) vs ps → Forall2 (Heap.repr (Heap.objects s')) vs ps.
Proof.
  intros He H. eapply Forall2_impl; [exact H|]. intros v p. by apply repr_extends.
Qed.

Lemma truthy_repr s v p :
  Heap.repr (Heap.objects s) v p → Heap.truthy v s = (Ok (truthy p), s).
Proof.
  intros Hv. unfold Heap.truthy, mbind, Heap.M_bind, Heap.bind, Heap.deref, Heap.ret.
  inversion Hv as [| | | |l vs ps Hl Hvs|l kvs kps Hl Hkvs]; subst; cbn;
    try done; rewrite Hl; by inversion_clear 1 || (by destruct Hvs) || by destruct Hkvs.
Qed.

Lemma assoc_repr h key kvs kps :
  Forall2 (λ kv kp, kv.1 = kp.1 ∧ Heap.repr h kv.2 kp.2) kvs kps →
  option_Forall2 (Heap.repr h) (assoc key kvs) (assoc key kps).
Proof.
  induction 1 as [|[k v] [k' p] kvs kps [Hk Hv] _ IH]; cbn in *; [constructor|].
  subst k'. destruct (String.eqb k key); [by constructor|done].
Qed.

(** [.get] on a dict: the values found agree, and a missing key gives the
    default on both sides. *)
Lemma py_get_repr_dict s obj kps key dflt s' d pd :
  Heap.repr (Heap.objects s) obj (PDict kps) →
  dflt s = (Ok d, s') → Heap.extends s s' → Heap.repr (Heap.objects s') d pd →
  ∃ v, Heap.py_get obj key dflt s = (Ok v, s')
       ∧ Heap.repr (Heap.objects s') v (default pd (assoc key kps)).
Proof.
  intros Hobj Hd He Hdp. inversion Hobj as [| | | | |l kvs ? Hl Hkvs Hobj'].
  assert (Heap.py_get obj key dflt s
          = (Ok (default d (assoc key kvs)), s')) as Hget.
  { subst. unfold Heap.py_get.
    erewrite bind_ok by (unfold Heap.deref; by rewrite Hl). cbn.
    by erewrite bind_ok by exact Hd. }
  subst. eexists. split; [exact Hget|].
  destruct (assoc_repr (Heap.objects s) key kvs kps Hkvs) as [v p Hvp|]; cbn; [|done].
  by apply (repr_extends s s').
Qed.

(** [.get] on anything else raises [AttributeError] on both sides. *)
Lemma py_get_repr_other s obj p key dflt pd :
  Heap.repr (Heap.objects s) obj p → (∀ kps, p ≠ PDict kps) →
  Heap.py_get obj key dflt s = (Raise AttributeError, s)
  ∧ py_get p key pd = Raise AttributeError.
Proof.
  intros Hobj Hnd. unfold Heap.py_get, mbind, Heap.M_bind, Heap.bind, Heap.deref.
  inversion Hobj as [| | | |l vs ps Hl Hvs|l kvs kps Hl Hkvs]; subst; cbn;
    try done.
  - by rewrite Hl.
  - by destruct (Hnd kps).
Qed.

Lemma py_items_repr s obj p :
  Heap.repr (Heap.objects s) obj p →
  match py_items p with
  | Ok kps => ∃ kvs, Heap.py_items obj s = (Ok kvs, s)
      ∧ Forall2 (λ kv kp, kv.1 = kp.1 ∧ Heap.repr (Heap.objects s) kv.2 kp.2) kvs kps
  | Raise e => Heap.py_items obj s = (Raise e, s)
  end.
Proof.
  intros Hobj. unfold Heap.py_items, mbind, Heap.M_bind, Heap.bind, Heap.deref.
  inversion Hobj as [| | | |l vs ps Hl Hvs|l kvs kps Hl Hkvs]; subst; cbn;
    try done; rewrite Hl; cbn; eauto.
Qed.

Lemma py_iter_repr s obj p :
  Heap.repr (Heap.objects s) obj p →
  match py_iter p with
  | Ok ps => ∃ vs, Heap.py_iter obj s = (Ok vs, s)
      ∧ Forall2 (Heap.repr (Heap.objects s)) vs ps
  | Raise e => Heap.py_iter obj s = (Raise e, s)
  end.
Proof.
  intros Hobj. unfold Heap.py_iter, mbind, Heap.M_bind, Heap.bind, Heap.deref.
  inversion Hobj as [| | |str|l vs ps Hl Hvs|l kvs kps Hl Hkvs]; subst; cbn;
    try done.
  - eexists. split; [done|].
    induction (String.list_ascii_of_string str); constructor; [constructor|done].
  - rewrite Hl. cbn. eauto.
  - rewrite Hl. cbn. eexists. split; [done|]. clear Hl Hobj.
    induction Hkvs as [|[k v] [k' p'] kvs kps [Hk _] _ IH]; cbn in *;
      constructor; [subst; constructor|done].
Qed.

Lemma py_eq_repr h got v p : Heap.repr h v p → Heap.py_eq got v = py_eq got p.
Proof. intros Hv. by inversion Hv; destruct got. Qed.

Lemma conds_match_repr h ctx_dict kvs kps :
  Forall2 (λ kv kp, kv.1 = kp.1 ∧ Heap.repr h kv.2 kp.2) kvs kps →
  forallb (λ kv, Heap.py_eq (ctx_dict !! kv.1) kv.2) kvs
  = conds_match ctx_dict kps.
Proof.
  unfold conds_match.
  induction 1 as [|[k v] [k' p] kvs kps [Hk Hv] _ IH]; cbn in *; [done|].
  subst k'. by rewrite (py_eq_repr h _ v p Hv), IH.
Qed.

Lemma new_StyleDecision_repr s v p idx :
  Heap.repr (Heap.objects s) v p →
  Heap.new_StyleDecision v idx s = (new_StyleDecision p idx, s).
Proof. intros Hv. by inversion Hv. Qed.

Lemma bind_run {A B} (m : Heap.M A) (f : A → Heap.M B) s r s' :
  m s = (r, s') →
  mbind f m s = match r with Ok a => f a s' | Raise e => (Raise e, s') end.
Proof. unfold mbind, Heap.M_bind, Heap.bind. by intros ->. Qed.

Lemma alloc_empty_dict s :
  ∃ d s', Heap.alloc (Heap.ODict []) s = (Ok d, s')
          ∧ Heap.extends s s' ∧ Heap.repr (Heap.objects s') d (PDict []).
Proof.
  eexists _, _. split; [reflexivity|]. split; [apply (frames_alloc _ s)|].
  cbn. eapply Heap.repr_dict; [|constructor].
  by rewrite lookup_app_r, Nat.sub_diag.
Qed.

(** Line 40 on both sides: the same constraint mapping or the same
    exception, and a store that only grew. *)
Lemma rule_conds_repr s rule p :
  Heap.repr (Heap.objects s) rule p →
  ∃ s', Heap.extends s s'
    ∧ match rule_conds p with
      | Ok kps => ∃ kvs, Heap.rule_conds rule s = (Ok kvs, s')
          ∧ Forall2 (λ kv kp, kv.1 = kp.1 ∧ Heap.repr (Heap.objects s') kv.2 kp.2)
              kvs kps
      | Raise e => Heap.rule_conds rule s = (Raise e, s')
      end.
Proof.
  intros Hrule. unfold Heap.rule_conds, rule_conds.
  assert ((∃ kps, p = PDict kps) ∨ ¬ (∃ kps, p = PDict kps)) as [[kps ->]|Hnd]
    by (destruct p; eauto; right; intros [? ?]; discriminate).
  - destruct (alloc_empty_dict s) as (d & s1 & Hd & He1 & Hdr).
    destruct (py_get_repr_dict s rule kps "conditions" _ s1 d (PDict [])
                Hrule Hd He1 Hdr) as (c & Hc & Hcr).
    rewrite (bind_run _ _ _ _ _ Hc). cbn.
    set (pc := default (PDict []) (assoc "conditions" kps)) in *.
    rewrite (bind_run _ _ _ _ _ (truthy_repr s1 c pc Hcr)).
    unfold py_or. destruct (truthy pc).
    + exists s1. split; [done|]. erewrite bind_run by reflexivity.
      pose proof (py_items_repr s1 c pc Hcr) as Hi.
      destruct (py_items pc); [|done]. exact Hi.
    + destruct (alloc_empty_dict s1) as (d2 & s2 & Hd2 & He2 & Hdr2).
      exists s2. split; [by eapply extends_trans|].
      rewrite (bind_run _ _ _ _ _ Hd2).
      exact (py_items_repr s2 d2 (PDict []) Hdr2).
  - exists s. split; [apply extends_refl|].
    destruct (py_get_repr_other s rule p "conditions"
                (Heap.alloc (Heap.ODict [])) (PDict []) Hrule) as [Hh Hp].
    { intros kps ->. apply Hnd. eauto. }
    rewrite Hp. cbn. by rewrite (bind_run _ _ _ _ _ Hh).
Qed.

Lemma rule_matches_repr s ctx_dict rule p :
  Heap.repr (Heap.objects s) rule p →
  ∃ s', Heap.extends s s'
    ∧ Heap.rule_matches ctx_dict rule s = (rule_matches ctx_dict p, s').
Proof.
  intros Hrule. destruct (rule_conds_repr s rule p Hrule) as (s' & He & H).
  exists s'. split; [done|]. unfold Heap.rule_matches, rule_matches.
  destruct (rule_conds p) as [kps|e].
  - destruct H as (kvs & Hrun & Hkvs). rewrite (bind_run _ _ _ _ _ Hrun).
    cbn. unfold Heap.ret. by rewrite (conds_match_repr _ _ _ _ Hkvs).
  - by rewrite (bind_run _ _ _ _ _ H).
Qed.

(** The loop over the store returns what the loop over the value trees
    returns. *)
Lemma decide_loop_refines ctx_dict ps : ∀ vs idx s,
  Forall2 (Heap.repr (Heap.objects s)) vs ps →
  (Heap.decide_loop ctx_dict idx vs s).1 = decide_loop ctx_dict idx ps.
Proof.
  induction ps as [|p ps IH]; intros vs idx s H;
    inversion H as [|v ? vs' ? Hv Hrest]; subst; [done|].
  cbn [Heap.decide_loop decide_loop].
  destruct (rule_matches_repr s ctx_dict v p Hv) as (s' & He & Hrun).
  rewrite (bind_run _ _ _ _ _ Hrun).
  destruct (rule_matches ctx_dict p) as [[|]|e] eqn:Hm; cbn; [| |done].
  - assert (∃ kps, p = PDict kps) as [kps ->].
    { destruct p; try discriminate. eauto. }
    destruct (py_get_repr_dict s' v kps "style" (Heap.ret (Heap.VStr "hybrid"))
                s' (Heap.VStr "hybrid") (PStr "hybrid")) as (st & Hst & Hstr);
      [by eapply repr_extends|done|apply extends_refl|constructor|].
    rewrite (bind_run _ _ _ _ _ Hst).
    by rewrite (new_StyleDecision_repr s' st _ idx Hstr).
  - apply IH. by eapply Forall2_repr_extends.
Qed.

(** ** The object store: the cache slot *)

Lemma keeps_cache_ret {A} (a : A) : Heap.keeps_cache (Heap.ret a).
Proof. done. Qed.

Lemma keeps_cache_raise {A} e : Heap.keeps_cache (Heap.raise (A:=A) e).
Proof. done. Qed.

Lemma keeps_cache_bind {A B} (m : Heap.M A) (f : A → Heap.M B) :
  Heap.keeps_cache m → (∀ a, Heap.keeps_cache (f a)) →
  Heap.keeps_cache (mbind f m).
Proof.
  intros Hm Hf s. unfold mbind, Heap.M_bind, Heap.bind. specialize (Hm s).
  destruct (m s) as [[a|e] s']; cbn in *; [|done]. by rewrite Hf.
Qed.

Lemma keeps_cache_alloc o : Heap.keeps_cache (Heap.alloc o).
Proof. done. Qed.

Lemma keeps_cache_deref v : Heap.keeps_cache (Heap.deref v).
Proof.
  intros s. unfold Heap.deref. destruct v; try done.
  by destruct (Heap.objects s !! l).
Qed.

Lemma keeps_cache_model_dump c : Heap.keeps_cache (Heap.model_dump c).
Proof.
  intros s. unfold Heap.model_dump. by destruct (Heap.contexts s !! c).
Qed.

Lemma keeps_cache_new_StyleDecision v idx :
  Heap.keeps_cache (Heap.new_StyleDecision v idx).
Proof. by destruct v. Qed.

Create HintDb cache_db.
Hint Resolve keeps_cache_ret keeps_cache_raise keeps_cache_alloc
  keeps_cache_deref keeps_cache_model_dump keeps_cache_new_StyleDecision
  : cache_db.

Ltac solve_keeps_cache :=
  repeat first
    [ apply keeps_cache_bind; [|intros ?]
    | progress auto with cache_db
    | match goal with
      | |- Heap.keeps_cache (match ?x with _ => _ end) => destruct x
      | |- Heap.keeps_cache (if ?x then _ else _) => destruct x
      end ].

Lemma keeps_cache_truthy v : Heap.keeps_cache (Heap.truthy v).
Proof. unfold Heap.truthy. solve_keeps_cache. Qed.

Lemma keeps_cache_py_get obj key dflt :
  Heap.keeps_cache dflt → Heap.keeps_cache (Heap.py_get obj key dflt).
Proof. intros Hd. unfold Heap.py_get. solve_keeps_cache. Qed.

Lemma keeps_cache_py_iter obj : Heap.keeps_cache (Heap.py_iter obj).
Proof. unfold Heap.py_iter. solve_keeps_cache. Qed.

Lemma keeps_cache_py_items obj : Heap.keeps_cache (Heap.py_items obj).
Proof. unfold Heap.py_items. solve_keeps_cache. Qed.

Hint Resolve keeps_cache_truthy keeps_cache_py_get keeps_cache_py_iter
  keeps_cache_py_items : cache_db.

Lemma keeps_cache_decide_loop ctx_dict rules : ∀ idx,
  Heap.keeps_cache (Heap.decide_loop ctx_dict idx rules).
Proof.
  induction rules as [|rule rest IH]; intros idx; cbn;
    unfold Heap.rule_matches, Heap.rule_conds; solve_keeps_cache.
Qed.

(** Everything after [config or get_config()]. *)
Lemma keeps_cache_after_config context cfg :
  Heap.keeps_cache
    (rules ← Heap.py_get cfg "strategies" (Heap.alloc (Heap.OList []));
     ctx_dict ← Heap.model_dump context;
     items ← Heap.py_iter rules;
     Heap.decide_loop ctx_dict 0 items).
Proof.
  pose proof keeps_cache_decide_loop. solve_keeps_cache.
Qed.

(** ** The object store: [decide_style] *)

Lemma alloc_empty_list s :
  ∃ d s', Heap.alloc (Heap.OList []) s = (Ok d, s')
          ∧ Heap.extends s s' ∧ Heap.repr (Heap.objects s') d (PList []).
Proof.
  eexists _, _. split; [reflexivity|]. split; [apply (frames_alloc _ s)|].
  cbn. eapply Heap.repr_list; [|constructor].
  by rewrite lookup_app_r, Nat.sub_diag.
Qed.

(** Lines 35-47 once the configuration is chosen. *)
Lemma after_config_refines s c ctx cfg p :
  Heap.contexts s !! c = Some ctx →
  Heap.repr (Heap.objects s) cfg p →
  ((rules ← Heap.py_get cfg "strategies" (Heap.alloc (Heap.OList []));
    ctx_dict ← Heap.model_dump c;
    items ← Heap.py_iter rules;
    Heap.decide_loop ctx_dict 0 items) s).1
  = (rules ← py_get p "strategies" (PList []);
     items ← py_iter rules;
     decide_loop (model_dump ctx) 0 items).
Proof.
  intros Hc Hcfg.
  assert ((∃ kps, p = PDict kps) ∨ ¬ (∃ kps, p = PDict kps)) as [[kps ->]|Hnd]
    by (destruct p; eauto; right; intros [? ?]; discriminate).
  - destruct (alloc_empty_list s) as (d & s1 & Hd & He1 & Hdr).
    destruct (py_get_repr_dict s cfg kps "strategies" _ s1 d (PList [])
                Hcfg Hd He1 Hdr) as (rs & Hrs & Hrsr).
    rewrite (bind_run _ _ _ _ _ Hrs). cbn.
    set (prs := default (PList []) (assoc "strategies" kps)) in *.
    assert (Heap.model_dump c s1 = (Ok (model_dump ctx), s1)) as Hdump.
    { unfold Heap.model_dump. destruct He1 as (_ & -> & _). by rewrite Hc. }
    rewrite (bind_run _ _ _ _ _ Hdump).
    pose proof (py_iter_repr s1 rs prs Hrsr) as Hit.
    destruct (py_iter prs) as [ps|e]; cbn.
    + destruct Hit as (vs & Hvs & Hvsr). rewrite (bind_run _ _ _ _ _ Hvs).
      by apply decide_loop_refines.
    + by rewrite (bind_run _ _ _ _ _ Hit).
  - destruct (py_get_repr_other s cfg p "strategies"
                (Heap.alloc (Heap.OList [])) (PList []) Hcfg) as [Hh Hp].
    { intros kps ->. apply Hnd. eauto. }
    rewrite Hp. cbn. by rewrite (bind_run _ _ _ _ _ Hh).
Qed.

(** With the rule list supplied, the call over the store returns what the
    loop over the value trees returns, and leaves the cache slot alone. *)
Lemma decide_style_supplied_refines s c ctx config p rules :
  Heap.contexts s !! c = Some ctx →
  Heap.repr (Heap.objects s) config p →
  supplies p rules →
  (Heap.decide_style c config s).1 = decide_loop (model_dump ctx) 0 rules
  ∧ Heap.cache (Heap.decide_style c config s).2 = Heap.cache s.
Proof.
  intros Hc Hcfg (kps & -> & Hs).
  assert (truthy (PDict kps) = true) as Ht by (by destruct kps).
  pose proof (truthy_repr s config _ Hcfg) as Hrun. rewrite Ht in Hrun.
  unfold Heap.decide_style. rewrite (bind_run _ _ _ _ _ Hrun).
  erewrite bind_run by reflexivity. split.
  - rewrite (after_config_refines s c ctx config (PDict kps) Hc Hcfg).
    cbn. by rewrite Hs.
  - apply keeps_cache_after_config.
Qed.

(** ** The object store: loading *)

Lemma build_all_rel {A B} (f : A → list Heap.object → B * list Heap.object)
    (R : list Heap.object → B → A → Prop) xs :
  (∀ h new y x, R h y x → R (h ++ new) y x) →
  Forall (λ x, ∀ h, (∃ new, (f x h).2 = h ++ new) ∧ R (f x h).2 (f x h).1 x) xs →
  ∀ h, Forall2 (R (Heap.build_all f xs h).2) (Heap.build_all f xs h).1 xs.
Proof.
  intros Hmono. induction 1 as [|x xs Hx Hxs IH]; intros h; cbn; [constructor|].
  destruct (Hx h) as [_ Hr]. destruct (f x h) as [y h1] eqn:Hf. cbn in Hr.
  specialize (IH h1).
  destruct (build_all_extends f xs) with (h := h1) as [new Hnew].
  { eapply Forall_impl; [exact Hxs|]. intros x' Hx' h'. apply Hx'. }
  destruct (Heap.build_all f xs h1) as [ys h2]. cbn in *. subst h2.
  constructor; [by apply Hmono|done].
Qed.

(** What [yaml.safe_load] returns denotes the document. *)
Lemma build_repr p : ∀ h, Heap.repr (Heap.build p h).2 (Heap.build p h).1 p.
Proof.
  induction p as [| | | |xs IH|kvs IH] using pyval_ind'; intros h; cbn;
    try constructor.
  - assert (Forall2 (Heap.repr (Heap.build_all Heap.build xs h).2)
              (Heap.build_all Heap.build xs h).1 xs) as Hall.
    { apply (build_all_rel Heap.build Heap.repr xs).
      - intros h0 new y x. apply repr_mono.
      - eapply Forall_impl; [exact IH|].
        intros x Hx h0. split; [apply build_extends|apply Hx]. }
    destruct (Heap.build_all Heap.build xs h) as [vs h']. cbn in *.
    apply Heap.repr_list with vs.
    + by rewrite lookup_app_r, Nat.sub_diag.
    + eapply Forall2_impl; [exact Hall|]. intros v x. apply repr_mono.
  - set (f := λ (kp : string * pyval) (h : list Heap.object),
               let '(v, h1) := Heap.build kp.2 h in ((kp.1, v), h1)).
    set (R := λ h (kv : string * Heap.val) (kp : string * pyval),
               kv.1 = kp.1 ∧ Heap.repr h kv.2 kp.2).
    assert (Forall2 (R (Heap.build_all f kvs h).2)
              (Heap.build_all f kvs h).1 kvs) as Hall.
    { apply (build_all_rel f R kvs).
      - intros h0 new y x [? ?]. split; [done|by apply repr_mono].
      - eapply Forall_impl; [exact IH|]. intros [k v] Hv h0. cbn in *.
        pose proof (build_extends v h0) as He. specialize (Hv h0).
        unfold f, R. cbn. destruct (Heap.build v h0). cbn in *. eauto. }
    destruct (Heap.build_all f kvs h) as [kvs' h']. cbn in *.
    apply Heap.repr_dict with kvs'.
    + by rewrite lookup_app_r, Nat.sub_diag.
    + eapply Forall2_impl; [exact Hall|].
      intros kv kp [? ?]. split; [done|by apply repr_mono].
Qed.

Lemma world_repr_extends s s' w :
  Heap.extends s s' → Heap.cache s' = Heap.cache s →
  world_repr s w → world_repr s' w.
Proof.
  intros He Hc [Hf Hr]. pose proof He as (_ & _ & Hf'). split; [congruence|].
  rewrite Hc. destruct Hr; constructor. by eapply repr_extends.
Qed.

(** [get_config] over the store and over the value trees: the same
    exception, or the same configuration, cached on both sides. *)
Lemma get_config_refines s w :
  world_repr s w →
  Heap.extends s (Heap.get_config s).2
  ∧ world_repr (Heap.get_config s).2 (get_config w).2
  ∧ match (get_config w).1 with
    | Ok p => ∃ v, (Heap.get_config s).1 = Ok v
                   ∧ Heap.repr (Heap.objects (Heap.get_config s).2) v p
    | Raise e => (Heap.get_config s).1 = Raise e
    end.
Proof.
  intros [Hf Hr]. split; [apply frames_get_config|].
  unfold Heap.get_config, get_config. rewrite Hf.
  destruct (Heap.cache s) as [v|] eqn:Hcs, (cache w) as [p|] eqn:Hcw;
    inversion Hr as [? ? Hvp|]; subst; cbn.
  - split_and!; [split; [done|rewrite Hcs, Hcw; by constructor]|eauto].
  - destruct (_load_config (files w) None) as [doc|e]; cbn.
    + pose proof (build_repr doc (Heap.objects s)) as Hb.
      destruct (Heap.build doc (Heap.objects s)) as [cfg h]. cbn in *.
      split_and!; [split; [done|by constructor]|eauto].
    + split_and!; [split; [done|rewrite Hcs, Hcw; constructor]|done].
Qed.

(** The call over the store and the call over the value trees return the
    same decision or raise the same exception, and leave related worlds. *)
Lemma decide_style_refines s w c ctx config p :
  Heap.contexts s !! c = Some ctx →
  Heap.repr (Heap.objects s) config p →
  world_repr s w →
  (Heap.decide_style c config s).1 = (decide_style ctx p w).1
  ∧ world_repr (Heap.decide_style c config s).2 (decide_style ctx p w).2.
Proof.
  intros Hc Hcfg Hw. unfold Heap.decide_style, decide_style.
  rewrite (bind_run _ _ _ _ _ (truthy_repr s config p Hcfg)).
  destruct (truthy p).
  - erewrite bind_run by reflexivity. cbn. split.
    + by rewrite (after_config_refines s c ctx config p Hc Hcfg).
    + eapply world_repr_extends; [| |exact Hw].
      * pose proof frames_decide_loop.
        match goal with |- Heap.extends s (?m s).2 =>
          assert (Heap.frames m) as Hfr by solve_frames end. apply Hfr.
      * apply keeps_cache_after_config.
  - destruct (get_config_refines s w Hw) as (He & Hw' & Hres).
    destruct (Heap.get_config s) as [r s1] eqn:Hg.
    destruct (get_config w) as [r' w1]. cbn in *.
    rewrite (bind_run _ _ _ _ _ Hg).
    destruct r' as [p'|e]; cbn.
    + destruct Hres as (v & -> & Hv).
      assert (Heap.contexts s1 !! c = Some ctx) as Hc1
        by (destruct He as (_ & -> & _); done).
      split.
      * by rewrite (after_config_refines s1 c ctx v p' Hc1 Hv).
      * eapply world_repr_extends; [| |exact Hw'].
        -- pose proof frames_decide_loop.
           match goal with |- Heap.extends s1 (?m s1).2 =>
             assert (Heap.frames m) as Hfr by solve_frames end. apply Hfr.
        -- apply keeps_cache_after_config.
    + by rewrite Hres.
Qed.

Example sample_state_concise :
  (Heap.decide_style 0 sample_ref sample_state).1
  = Ok {| style := "concise"; matched_rule_index := 2 |}.
Proof. vm_compute. reflexivity. Qed.

(** Without a [config] argument the call goes to [get_config], which finds
    no file here; the store is as it was. *)
Example sample_state_no_file :
  Heap.decide_style 0 Heap.VNone sample_state
  = (Raise FileNotFoundError, sample_state).
Proof. vm_compute. reflexivity. Qed.

End frame.

(** * The claims *)

(** C1 (as amended).  When the rules at indices [i < j] both match, the
    decision is that of the lowest-index matching rule [k]: [k ≤ i], so it
    is never [j], and it is rule [i] itself when no rule before [i] matches.
    The rules after [k] are not looked at: replacing them by anything
    leaves the decision as it is. *)
Theorem first_match_priority context config rules w (i j : nat) ri rj :
  supplies config rules →
  Forall (λ r, rule_record r = true) (take (S i) rules) →
  (i < j)%nat →
  rules !! i = Some ri → rules !! j = Some rj →
  rule_matches (model_dump context) ri = Ok true →
  rule_matches (model_dump context) rj = Ok true →
  ∃ (k : nat) rk,
    (k ≤ i)%nat ∧ k ≠ j ∧ rules !! k = Some rk
    ∧ rule_matches (model_dump context) rk = Ok true
    ∧ (∀ (m : nat) r, (m < k)%nat → rules !! m = Some r →
         rule_matches (model_dump context) r = Ok false)
    ∧ decide_style context config w
      = (Ok {| style := rule_label rk; matched_rule_index := Z.of_nat k |}, w)
    ∧ ((∀ (m : nat) r, (m < i)%nat → rules !! m = Some r →
          rule_matches (model_dump context) r = Ok false) → k = i ∧ rk = ri)
    ∧ ∀ later,
        decide_style context
          (PDict [("strategies", PList (take (S k) rules ++ later))]) w
        = (Ok {| style := rule_label rk; matched_rule_index := Z.of_nat k |}, w).
Proof.
  intros Hcfg Hrec Hij Hi Hj Hri Hrj.
  destruct (decide_loop_priority (model_dump context) rules i ri 0 Hrec Hi Hri)
    as (k & rk & Hk & Hlk & Hmk & Hbefore & Hres).
  exists k, rk. split_and!; [done|lia|done..| | |].
  - rewrite (decide_style_supplied _ _ _ _ Hcfg).
    by rewrite <-(take_drop (S k) rules), Hres.
  - intros Hnone. destruct (decide (k = i)) as [->|Hne]; [split; congruence|].
    assert (k < i)%nat as Hlt by lia.
    specialize (Hnone k rk Hlt Hlk). congruence.
  - intros later. rewrite (decide_style_supplied _ _ (take (S k) rules ++ later)).
    + by rewrite Hres.
    + by eexists.
Qed.

Lemma first_match_priority_witness :
  let context := novice_negative in
  (supplies sample_config sample_rules
   ∧ Forall (λ r, rule_record r = true) (take 1 sample_rules)
   ∧ (0 < 1)%nat)
  ∧ ∃ (k : nat) rk,
      (k ≤ 0)%nat ∧ k ≠ 1%nat ∧ sample_rules !! k = Some rk
      ∧ rule_matches (model_dump context) rk = Ok true
      ∧ (∀ (m : nat) r, (m < k)%nat → sample_rules !! m = Some r →
           rule_matches (model_dump context) r = Ok false)
      ∧ decide_style context sample_config no_files
        = (Ok {| style := rule_label rk; matched_rule_index := Z.of_nat k |},
           no_files)
      ∧ ((∀ (m : nat) r, (m < 0)%nat → sample_rules !! m = Some r →
            rule_matches (model_dump context) r = Ok false)
         → k = 0%nat
           ∧ rk = rule [("emotion", PStr "negative")] "reassuring_explanatory")
      ∧ ∀ later,
          decide_style context
            (PDict [("strategies", PList (take (S k) sample_rules ++ later))])
            no_files
          = (Ok {| style := rule_label rk; matched_rule_index := Z.of_nat k |},
             no_files).
Proof.
  intros context.
  assert (supplies sample_config sample_rules) as Hs by (by eexists).
  assert (Forall (λ r, rule_record r = true) (take 1 sample_rules)) as Hr
    by (repeat constructor).
  split; [split_and!; [done|done|lia]|].
  apply (first_match_priority context sample_config sample_rules no_files
           0 1 (rule [("emotion", PStr "negative")] "reassuring_explanatory")
           (rule [("knowledge", PStr "novice")] "explanatory") Hs Hr);
    [lia|reflexivity|reflexivity|run|run].
Defined.

(** C1 as stated fails when a third rule matches earlier still: with three
    catch-all rules, those at indices 1 and 2 both match, and the decision
    is that of rule 0, not of rule 1. *)
Lemma first_match_priority_counterexample :
  let rules := [rule [] "a"; rule [] "b"; rule [] "c"] in
  let config := PDict [("strategies", PList rules)] in
  ∃ ri rj,
    rules !! 1%nat = Some ri ∧ rules !! 2%nat = Some rj
    ∧ rule_matches (model_dump no_context) ri = Ok true
    ∧ rule_matches (model_dump no_context) rj = Ok true
    ∧ (decide_style no_context config no_files).1
      = Ok {| style := "a"; matched_rule_index := 0 |}
    ∧ (decide_style no_context config no_files).1
      ≠ Ok {| style := rule_label ri; matched_rule_index := 1 |}.
Proof.
  intros rules config. exists (rule [] "b"), (rule [] "c").
  split_and!; [reflexivity..|discriminate].
Qed.

(** C2 (as amended).  For a rule whose required values are all non-null,
    the rule matches exactly when every constrained attribute is set in the
    context and equals the required value. *)
Theorem match_semantics context r conds :
  rule_conds r = Ok conds →
  (∀ k v, (k, v) ∈ conds → v ≠ PNone) →
  rule_matches (model_dump context) r = Ok true
  ↔ ∀ k v, (k, v) ∈ conds →
      ∃ s, attribute_value context k = Some s ∧ v = PStr s.
Proof.
  intros Hc Hnn. rewrite (rule_matches_conds _ _ _ Hc). split.
  - intros [= H]. rewrite conds_match_Forall in H. intros k v Hin.
    specialize (H k v Hin). rewrite model_dump_lookup, py_eq_true in H.
    destruct H as [[_ ->]|H]; [|done]. by destruct (Hnn k PNone Hin).
  - intros H. f_equal. apply conds_match_Forall. intros k v Hin.
    rewrite model_dump_lookup, py_eq_true. right. by apply H.
Qed.

Lemma match_semantics_witness :
  (rule_conds (rule expert_conds "concise") = Ok expert_conds
   ∧ ∀ k v, (k, v) ∈ expert_conds → v ≠ PNone)
  ∧ (rule_matches (model_dump expert_context) (rule expert_conds "concise")
     = Ok true
     ↔ ∀ k v, (k, v) ∈ expert_conds →
         ∃ s, attribute_value expert_context k = Some s ∧ v = PStr s).
Proof.
  assert (∀ k v, (k, v) ∈ expert_conds → v ≠ PNone) as Hnn.
  { intros k v Hin. unfold expert_conds in Hin.
    repeat (apply elem_of_cons in Hin as [[= -> ->]|Hin]; [discriminate|]).
    by apply elem_of_nil in Hin. }
  split; [by split|].
  apply (match_semantics expert_context (rule expert_conds "concise")
           expert_conds eq_refl Hnn).
Defined.

(** C2 as stated fails for a null required value: the rule
    [{"conditions": {"knowledge": None}}] matches the context that leaves
    [knowledge] unset, since there [ctx_dict.get("knowledge")] is [None]. *)
Lemma match_semantics_counterexample :
  let r := PDict [("conditions", PDict [("knowledge", PNone)]);
                  ("style", PStr "plain")] in
  rule_conds r = Ok [("knowledge", PNone)]
  ∧ rule_matches (model_dump no_context) r = Ok true
  ∧ ¬ (∀ k v, (k, v) ∈ [("knowledge", PNone)] →
         ∃ s, attribute_value no_context k = Some s ∧ v = PStr s).
Proof.
  intros r. split_and!; [reflexivity..|].
  intros H. destruct (H "knowledge" PNone) as (s & Hs & _); [by left|].
  discriminate.
Qed.

(** C3.  When no rule of the supplied list matches (in particular when the
    list is empty), the decision is the label ["hybrid"] with index [-1]. *)
Theorem no_match_fallback context config rules w :
  supplies config rules →
  Forall (λ r, rule_matches (model_dump context) r = Ok false) rules →
  decide_style context config w
  = (Ok {| style := "hybrid"; matched_rule_index := -1 |}, w).
Proof.
  intros Hcfg Hnone. rewrite (decide_style_supplied _ _ _ _ Hcfg).
  by rewrite decide_loop_none.
Qed.

Lemma no_match_fallback_witness :
  (supplies sample_config sample_rules
   ∧ Forall (λ r, rule_matches (model_dump no_context) r = Ok false)
       sample_rules)
  ∧ decide_style no_context sample_config no_files
    = (Ok {| style := "hybrid"; matched_rule_index := -1 |}, no_files).
Proof.
  assert (supplies sample_config sample_rules) as Hs by (by eexists).
  assert (Forall (λ r, rule_matches (model_dump no_context) r = Ok false)
            sample_rules) as Hn by (repeat constructor).
  split; [by split|].
  apply (no_match_fallback no_context sample_config sample_rules no_files Hs Hn).
Defined.

(** C4.  A rule whose constraint mapping is empty matches every context;
    with such a rule in the supplied list the decision never carries the
    index [-1], and over rule records a decision with a non-negative index
    is returned. *)
Theorem wildcard_correctness context config rules w r :
  supplies config rules →
  r ∈ rules →
  rule_conds r = Ok [] →
  (∀ ctx_dict, rule_matches ctx_dict r = Ok true)
  ∧ (∀ d, (decide_style context config w).1 = Ok d →
       matched_rule_index d ≠ -1)
  ∧ (Forall (λ r, rule_record r = true) rules →
     ∃ d, decide_style context config w = (Ok d, w)
          ∧ 0 ≤ matched_rule_index d).
Proof.
  intros Hcfg Hin Hc.
  assert (∀ ctx_dict, rule_matches ctx_dict r = Ok true) as Hm.
  { intros ctx_dict. by rewrite (rule_matches_conds _ _ _ Hc). }
  rewrite (decide_style_supplied _ _ _ _ Hcfg). cbn.
  split_and!; [done| |].
  - intros d Hd.
    destruct (decide_loop_index _ _ _ _ Hd) as [[_ Hall]|(k & r' & _ & _ & ->)];
      [|lia].
    rewrite Forall_forall in Hall. specialize (Hall r Hin).
    rewrite Hm in Hall. discriminate.
  - intros Hrec. apply list_elem_of_lookup in Hin as [i Hi].
    assert (Forall (λ r, rule_record r = true) (take (S i) rules)) as Hrec'
      by (by apply Forall_take).
    destruct (decide_loop_priority (model_dump context) rules i r 0 Hrec' Hi
                (Hm _)) as (k & rk & _ & _ & _ & _ & Hres).
    eexists. split.
    + by rewrite <-(take_drop (S k) rules), Hres.
    + cbn. lia.
Qed.

Lemma wildcard_correctness_witness :
  let rules := sample_rules ++ [rule [] "hybrid"] in
  let config := PDict [("strategies", PList rules)] in
  (supplies config rules ∧ rule [] "hybrid" ∈ rules
   ∧ rule_conds (rule [] "hybrid") = Ok [])
  ∧ (∀ ctx_dict, rule_matches ctx_dict (rule [] "hybrid") = Ok true)
  ∧ (∀ d, (decide_style no_context config no_files).1 = Ok d →
       matched_rule_index d ≠ -1)
  ∧ (Forall (λ r, rule_record r = true) rules →
     ∃ d, decide_style no_context config no_files = (Ok d, no_files)
          ∧ 0 ≤ matched_rule_index d).
Proof.
  intros rules config.
  assert (supplies config rules) as Hs by (by eexists).
  assert (rule [] "hybrid" ∈ rules) as Hin
    by (apply elem_of_app; right; by left).
  split; [by split_and!|].
  apply (wildcard_correctness no_context config rules no_files
           (rule [] "hybrid") Hs Hin eq_refl).
Defined.

(** C5.  For every context and every supplied list of rule records,
    [decide_style] returns exactly one decision and raises nothing. *)
Theorem totality context config rules w :
  supplies config rules →
  Forall (λ r, rule_record r = true) rules →
  exists! d, decide_style context config w = (Ok d, w).
Proof.
  intros Hcfg Hrec. rewrite (decide_style_supplied _ _ _ _ Hcfg).
  assert (∀ idx, ∃ d, decide_loop (model_dump context) idx rules = Ok d)
    as Hloop.
  { clear Hcfg. induction Hrec as [|r rest Hr _ IH]; intros idx; cbn.
    - eauto.
    - destruct (rule_record_matches (model_dump context) r Hr) as [[|] ->]; cbn.
      + fold (rule_style r). rewrite (rule_record_style r Hr). cbn. eauto.
      + apply IH. }
  destruct (Hloop 0) as [d Hd]. exists d. split.
  - by rewrite Hd.
  - intros d' Hd'. congruence.
Qed.

Lemma totality_witness :
  (supplies sample_config sample_rules
   ∧ Forall (λ r, rule_record r = true) sample_rules)
  ∧ exists! d, decide_style expert_context sample_config no_files = (Ok d, no_files).
Proof.
  assert (supplies sample_config sample_rules) as Hs by (by eexists).
  assert (Forall (λ r, rule_record r = true) sample_rules) as Hr
    by (repeat constructor).
  split; [by split|].
  apply (totality expert_context sample_config sample_rules no_files Hs Hr).
Defined.

(** C6.  With the rule list supplied, the decision is the same whatever the
    state of the files and of the cache, so any two evaluations of the same
    (context, config) pair agree; the second may run in the world the first
    one left.  The same holds over the object store: two calls whose
    arguments denote the same context and configuration return the same
    result, in particular a call repeated in the store the first one left. *)
Theorem determinism context config rules :
  supplies config rules →
  (∀ w1 w2,
     (decide_style context config w1).1 = (decide_style context config w2).1)
  ∧ (∀ w, (decide_style context config (decide_style context config w).2).1
          = (decide_style context config w).1)
  ∧ (∀ s1 s2 c1 c2 v1 v2,
       Heap.contexts s1 !! c1 = Some context →
       Heap.contexts s2 !! c2 = Some context →
       Heap.repr (Heap.objects s1) v1 config →
       Heap.repr (Heap.objects s2) v2 config →
       (Heap.decide_style c1 v1 s1).1 = (Heap.decide_style c2 v2 s2).1)
  ∧ (∀ s c v,
       Heap.contexts s !! c = Some context →
       Heap.repr (Heap.objects s) v config →
       (Heap.decide_style c v (Heap.decide_style c v s).2).1
       = (Heap.decide_style c v s).1).
Proof.
  intros Hcfg.
  assert (∀ s c v,
            Heap.contexts s !! c = Some context →
            Heap.repr (Heap.objects s) v config →
            (Heap.decide_style c v s).1
            = decide_loop (model_dump context) 0 rules) as Hheap.
  { intros s c v Hc Hv.
    by destruct (decide_style_supplied_refines s c context v config rules). }
  split_and!.
  - intros w1 w2. by rewrite !(decide_style_supplied _ _ _ _ Hcfg).
  - intros w. by rewrite !(decide_style_supplied _ _ _ _ Hcfg).
  - intros s1 s2 c1 c2 v1 v2 Hc1 Hc2 Hv1 Hv2. by rewrite !Hheap.
  - intros s c v Hc Hv.
    pose proof (frames_decide_style c v s) as He.
    rewrite (Hheap s c v Hc Hv). apply Hheap.
    + destruct He as (_ & -> & _). exact Hc.
    + by eapply repr_extends.
Qed.

Lemma determinism_witness :
  supplies sample_config sample_rules
  ∧ (∀ w1 w2,
       (decide_style expert_context sample_config w1).1
       = (decide_style expert_context sample_config w2).1)
  ∧ (∀ s c v,
       Heap.contexts s !! c = Some expert_context →
       Heap.repr (Heap.objects s) v sample_config →
       (Heap.decide_style c v (Heap.decide_style c v s).2).1
       = (Heap.decide_style c v s).1).
Proof.
  assert (supplies sample_config sample_rules) as Hs by (by eexists).
  split; [done|].
  destruct (determinism expert_context sample_config sample_rules Hs)
    as (H1 & _ & _ & H4).
  by split.
Defined.

(** C7.  A call of [decide_style] only reads and allocates: the model
    instances, the files and every object that was in the store before the
    call (the configuration dict, the rule list and each rule record among
    them) are the same after it, so every value denotes the tree it
    denoted.  When the configuration supplies the rule list, the result is
    the loop's result on the context and the rules alone, whatever the files
    and the cache hold, and the cache slot is left as it was. *)
Theorem no_mutation c config s :
  let s' := (Heap.decide_style c config s).2 in
  Heap.contexts s' = Heap.contexts s
  ∧ (∀ l o, Heap.objects s !! l = Some o → Heap.objects s' !! l = Some o)
  ∧ (∀ v p, Heap.repr (Heap.objects s) v p → Heap.repr (Heap.objects s') v p)
  ∧ Heap.files s' = Heap.files s
  ∧ ∀ ctx p rules,
      Heap.contexts s !! c = Some ctx →
      Heap.repr (Heap.objects s) config p →
      supplies p rules →
      (Heap.decide_style c config s).1 = decide_loop (model_dump ctx) 0 rules
      ∧ (∀ w, (Heap.decide_style c config s).1 = (decide_style ctx p w).1)
      ∧ Heap.cache s' = Heap.cache s.
Proof.
  intros s'. pose proof (frames_decide_style c config s) as He. fold s' in He.
  split_and!.
  - by destruct He as (_ & ? & _).
  - intros l o. by apply extends_lookup.
  - intros v p. by apply repr_extends.
  - by destruct He as (_ & _ & ?).
  - intros ctx p rules Hc Hcfg Hs.
    destruct (decide_style_supplied_refines s c ctx config p rules Hc Hcfg Hs)
      as [Hres Hcache].
    split_and!; [done| |done].
    intros w. by rewrite Hres, (decide_style_supplied _ _ _ _ Hs).
Qed.

Lemma no_mutation_witness :
  (Heap.contexts sample_state !! 0%nat = Some expert_context
   ∧ Heap.repr (Heap.objects sample_state) sample_ref sample_config
   ∧ supplies sample_config sample_rules)
  ∧ (Heap.decide_style 0 sample_ref sample_state).1
    = decide_loop (model_dump expert_context) 0 sample_rules
  ∧ (∀ w, (Heap.decide_style 0 sample_ref sample_state).1
          = (decide_style expert_context sample_config w).1)
  ∧ Heap.cache (Heap.decide_style 0 sample_ref sample_state).2
    = Heap.cache sample_state.
Proof.
  assert (Heap.repr (Heap.objects sample_state) sample_ref sample_config)
    as Hr by apply (build_repr sample_config []).
  assert (supplies sample_config sample_rules) as Hs by (by eexists).
  split; [by split_and!|].
  apply (no_mutation 0 sample_ref sample_state); [reflexivity|exact Hr|exact Hs].
Defined.

(** C8 (as amended).  With nothing cached, a default file that is missing,
    unreadable or not valid YAML makes the load raise, and a
    [decide_style] call that needs the configuration raises the same
    exception without evaluating a rule; a missing file raises
    [FileNotFoundError].  A readable document is accepted as it is: a rule
    entry without a style label is loaded and cached, and when it is the
    first matching rule the decision is ["hybrid"] with its index. *)
Theorem load_time_rejection w :
  cache w = None →
  ((∀ doc, files w DEFAULT_CONFIG_PATH ≠ Document doc) →
   ∃ e, _load_config (files w) None = Raise e
        ∧ get_config w = (Raise e, w)
        ∧ (files w DEFAULT_CONFIG_PATH = Absent → e = FileNotFoundError)
        ∧ ∀ context config, truthy config = false →
            decide_style context config w = (Raise e, w))
  ∧ (∀ doc, files w DEFAULT_CONFIG_PATH = Document doc →
       _load_config (files w) None = Ok doc
       ∧ get_config w = (Ok doc, {| files := files w; cache := Some doc |})
       ∧ ∀ context rules (i : nat) kvs,
           supplies doc rules →
           rules !! i = Some (PDict kvs) →
           assoc "style" kvs = None →
           rule_matches (model_dump context) (PDict kvs) = Ok true →
           (∀ (m : nat) r, (m < i)%nat → rules !! m = Some r →
              rule_matches (model_dump context) r = Ok false) →
           decide_style context PNone w
           = (Ok {| style := "hybrid"; matched_rule_index := Z.of_nat i |},
              {| files := files w; cache := Some doc |})).
Proof.
  intros Hc. split.
  - intros Hno.
    assert (∃ e, _load_config (files w) None = Raise e
                 ∧ (files w DEFAULT_CONFIG_PATH = Absent → e = FileNotFoundError))
      as (e & He & Habs).
    { unfold _load_config. cbn.
      destruct (files w DEFAULT_CONFIG_PATH) as [| | |doc] eqn:Hf;
        [eexists; split; [done|]; intros; congruence..|].
      by destruct (Hno doc). }
    exists e. unfold decide_style, get_config. rewrite Hc, He.
    split_and!; [done..|]. intros context config ->. done.
  - intros doc Hdoc.
    assert (_load_config (files w) None = Ok doc) as Hl
      by (unfold _load_config; cbn; by rewrite Hdoc).
    unfold get_config. rewrite Hc, Hl. split_and!; [done..|].
    intros context rules i kvs Hs Hi Hstyle Hm Hbefore.
    rewrite (decide_style_loaded context PNone w doc rules eq_refl Hc Hdoc Hs).
    rewrite (decide_loop_first _ _ i (PDict kvs) 0 Hi Hm Hbefore).
    unfold rule_style. cbn. by rewrite Hstyle.
Qed.

Lemma load_time_rejection_witness :
  cache no_files = None
  ∧ ((∀ doc, files no_files DEFAULT_CONFIG_PATH ≠ Document doc) →
     ∃ e, _load_config (files no_files) None = Raise e
          ∧ get_config no_files = (Raise e, no_files)
          ∧ (files no_files DEFAULT_CONFIG_PATH = Absent → e = FileNotFoundError)
          ∧ ∀ context config, truthy config = false →
              decide_style context config no_files = (Raise e, no_files))
  ∧ (∀ doc, files no_files DEFAULT_CONFIG_PATH ≠ Document doc).
Proof.
  split; [reflexivity|]. split; [|discriminate].
  apply (load_time_rejection no_files eq_refl).
Defined.

(** C8 as stated fails on a rules file whose only entry has no style label:
    the load succeeds and hands the entry over, and the entry then surfaces
    during matching as the selected rule, with the default label. *)
Lemma load_time_rejection_counterexample :
  supplies unlabelled_doc [PDict [("conditions", PDict [])]]
  ∧ assoc "style" [("conditions", PDict [])] = None
  ∧ _load_config (files unlabelled_world) None = Ok unlabelled_doc
  ∧ (get_config unlabelled_world).1 = Ok unlabelled_doc
  ∧ (decide_style no_context PNone unlabelled_world).1
    = Ok {| style := "hybrid"; matched_rule_index := 0 |}.
Proof. split_and!; [by eexists|reflexivity..]. Qed.

(** C9.  A rule whose ["conditions"] entry is null has the empty constraint
    mapping, exactly as a rule whose entry is [{}]: it matches every
    context, and it is the rule selected when no rule before it matches. *)
Theorem null_conditions context config rules w (i : nat) kvs :
  supplies config rules →
  rules !! i = Some (PDict kvs) →
  assoc "conditions" kvs = Some PNone →
  (∀ (m : nat) r, (m < i)%nat → rules !! m = Some r →
     rule_matches (model_dump context) r = Ok false) →
  rule_conds (PDict kvs) = Ok []
  ∧ (∀ kvs', assoc "conditions" kvs' = Some (PDict []) →
       rule_conds (PDict kvs') = rule_conds (PDict kvs))
  ∧ (∀ ctx_dict, rule_matches ctx_dict (PDict kvs) = Ok true)
  ∧ decide_style context config w
    = (s ← rule_style (PDict kvs); new_StyleDecision s (Z.of_nat i), w).
Proof.
  intros Hcfg Hi Hnull Hbefore.
  assert (rule_conds (PDict kvs) = Ok []) as Hc
    by (unfold rule_conds; cbn; by rewrite Hnull).
  assert (∀ ctx_dict, rule_matches ctx_dict (PDict kvs) = Ok true) as Hm.
  { intros ctx_dict. by rewrite (rule_matches_conds _ _ _ Hc). }
  split_and!; [done| |done|].
  - intros kvs' Hempty. rewrite Hc. unfold rule_conds. cbn. by rewrite Hempty.
  - rewrite (decide_style_supplied _ _ _ _ Hcfg).
    by rewrite (decide_loop_first _ _ i (PDict kvs) 0 Hi (Hm _) Hbefore).
Qed.

Lemma null_conditions_witness :
  let rules := sample_rules ++ [null_rule] in
  let config := PDict [("strategies", PList rules)] in
  (supplies config rules
   ∧ rules !! 4%nat = Some null_rule
   ∧ assoc "conditions" [("conditions", PNone); ("style", PStr "plain")]
     = Some PNone
   ∧ ∀ (m : nat) r, (m < 4)%nat → rules !! m = Some r →
       rule_matches (model_dump no_context) r = Ok false)
  ∧ rule_conds null_rule = Ok []
  ∧ (∀ kvs', assoc "conditions" kvs' = Some (PDict []) →
       rule_conds (PDict kvs') = rule_conds null_rule)
  ∧ (∀ ctx_dict, rule_matches ctx_dict null_rule = Ok true)
  ∧ decide_style no_context config no_files
    = (Ok {| style := "plain"; matched_rule_index := 4 |}, no_files).
Proof.
  intros rules config.
  assert (supplies config rules) as Hs by (by eexists).
  assert (∀ (m : nat) r, (m < 4)%nat → rules !! m = Some r →
            rule_matches (model_dump no_context) r = Ok false) as Hb.
  { intros m r Hm Hr.
    do 4 (destruct m as [|m]; [injection Hr as <-; run|]). lia. }
  split; [by split_and!|].
  apply (null_conditions no_context config rules no_files 4
           [("conditions", PNone); ("style", PStr "plain")] Hs eq_refl eq_refl Hb).
Defined.

(** C10.  When the first matching rule has no ["style"] entry,
    [decide_style] raises nothing: it returns the label ["hybrid"] with the
    index of that rule, which is not the fallback index [-1]. *)
Theorem missing_style_default context config rules w (i : nat) kvs :
  supplies config rules →
  rules !! i = Some (PDict kvs) →
  assoc "style" kvs = None →
  rule_matches (model_dump context) (PDict kvs) = Ok true →
  (∀ (m : nat) r, (m < i)%nat → rules !! m = Some r →
     rule_matches (model_dump context) r = Ok false) →
  decide_style context config w
  = (Ok {| style := "hybrid"; matched_rule_index := Z.of_nat i |}, w)
  ∧ 0 ≤ Z.of_nat i ∧ Z.of_nat i ≠ -1.
Proof.
  intros Hcfg Hi Hstyle Hm Hbefore. split; [|lia].
  rewrite (decide_style_supplied _ _ _ _ Hcfg).
  rewrite (decide_loop_first _ _ i (PDict kvs) 0 Hi Hm Hbefore).
  unfold rule_style. cbn. by rewrite Hstyle.
Qed.

Lemma missing_style_default_witness :
  let r := PDict [("conditions", PDict [("knowledge", PStr "novice")])] in
  let rules := [rule [("emotion", PStr "negative")] "reassuring"; r] in
  let config := PDict [("strategies", PList rules)] in
  let context := {| knowledge := Some KnowledgeLevel.novice; emotion := None;
                    clarity := None; urgency := None; stakes := None |} in
  (supplies config rules
   ∧ rules !! 1%nat = Some r
   ∧ assoc "style" [("conditions", PDict [("knowledge", PStr "novice")])] = None
   ∧ rule_matches (model_dump context) r = Ok true
   ∧ ∀ (m : nat) r', (m < 1)%nat → rules !! m = Some r' →
       rule_matches (model_dump context) r' = Ok false)
  ∧ decide_style context config no_files
    = (Ok {| style := "hybrid"; matched_rule_index := 1 |}, no_files)
  ∧ 0 ≤ 1 ∧ 1 ≠ -1.
Proof.
  intros r rules config context.
  assert (supplies config rules) as Hs by (by eexists).
  assert (rule_matches (model_dump context) r = Ok true) as Hm by run.
  assert (∀ (m : nat) r', (m < 1)%nat → rules !! m = Some r' →
            rule_matches (model_dump context) r' = Ok false) as Hb.
  { intros m r' Hlt Hr. destruct m as [|m]; [injection Hr as <-; run|lia]. }
  split; [by split_and!|].
  apply (missing_style_default context config rules no_files 1
           [("conditions", PDict [("knowledge", PStr "novice")])]
           Hs eq_refl eq_refl Hm Hb).
Defined.

(** * Further properties *)

(** ** What a decision says about the rule list *)




(** ** Matching, as line 42 decides it *)

(** X2.  A rule matches a context exactly when every pair of its constraint
    mapping is met: a null required value by an attribute that is unset (or
    a key that names no attribute), any other required value by an
    attribute that is set to that string. *)
Theorem match_exact context r conds :
  rule_conds r = Ok conds →
  rule_matches (model_dump context) r = Ok true
  ↔ ∀ k v, (k, v) ∈ conds →
      (attribute_value context k = None ∧ v = PNone)
      ∨ (∃ s, attribute_value context k = Some s ∧ v = PStr s).
Proof.
  intros Hc. rewrite (rule_matches_conds _ _ _ Hc). split.
  - intros [= H]. rewrite conds_match_Forall in H. intros k v Hin.
    specialize (H k v Hin). by rewrite model_dump_lookup, py_eq_true in H.
  - intros H. f_equal. apply conds_match_Forall. intros k v Hin.
    rewrite model_dump_lookup, py_eq_true. by apply H.
Qed.

Lemma match_exact_witness :
  rule_conds (rule expert_conds "concise") = Ok expert_conds
  ∧ (rule_matches (model_dump expert_context) (rule expert_conds "concise")
     = Ok true
     ↔ ∀ k v, (k, v) ∈ expert_conds →
         (attribute_value expert_context k = None ∧ v = PNone)
         ∨ (∃ s, attribute_value expert_context k = Some s ∧ v = PStr s)).
Proof.
  split; [reflexivity|].
  apply (match_exact expert_context (rule expert_conds "concise")
           expert_conds eq_refl).
Defined.

(** X3.  The attributes a rule does not constrain are wildcards: two
    contexts that agree on the keys of the constraint mapping get the same
    answer from the rule. *)
Theorem match_ignores_unconstrained c1 c2 r conds :
  rule_conds r = Ok conds →
  (∀ k v, (k, v) ∈ conds → attribute_value c1 k = attribute_value c2 k) →
  rule_matches (model_dump c1) r = rule_matches (model_dump c2) r.
Proof.
  intros Hc Hagree. rewrite !(rule_matches_conds _ _ _ Hc). f_equal.
  apply Bool.eq_iff_eq_true. rewrite !conds_match_Forall.
  split; intros H k v Hin; specialize (H k v Hin);
    rewrite model_dump_lookup in *; by rewrite (Hagree k v Hin) in *.
Qed.

Lemma match_ignores_unconstrained_witness :
  let conds := [("knowledge", PStr "novice")] in
  let c2 := {| knowledge := Some KnowledgeLevel.novice; emotion := None;
               clarity := None; urgency := None; stakes := None |} in
  (rule_conds (rule conds "explanatory") = Ok conds
   ∧ ∀ k v, (k, v) ∈ conds →
       attribute_value novice_negative k = attribute_value c2 k)
  ∧ rule_matches (model_dump novice_negative) (rule conds "explanatory")
    = rule_matches (model_dump c2) (rule conds "explanatory").
Proof.
  intros conds c2.
  assert (∀ k v, (k, v) ∈ conds →
            attribute_value novice_negative k = attribute_value c2 k) as Ha.
  { intros k v Hin. apply elem_of_cons in Hin as [[= -> _]|Hin]; [done|].
    by apply elem_of_nil in Hin. }
  split; [by split|].
  apply (match_ignores_unconstrained novice_negative c2
           (rule conds "explanatory") conds eq_refl Ha).
Defined.

(** A set attribute holds one of the strings of its enum. *)
Lemma attribute_value_in_values c k s :
  attribute_value c k = Some s → s ∈ attribute_values k.
Proof.
  unfold attribute_value, attribute_values.
  repeat case_decide; try discriminate;
    match goal with |- context [?f c] => destruct (f c) as [[]|] end;
    intros [= <-]; apply list_elem_of_In; cbn; tauto.
Qed.

Lemma no_context_unset k : attribute_value no_context k = None.
Proof. unfold attribute_value. by repeat case_decide. Qed.

(** In a dict every key has one value, the one [.get] finds. *)
Lemma assoc_NoDup {V} (kvs : list (string * V)) k v :
  NoDup kvs.*1 → (k, v) ∈ kvs → assoc k kvs = Some v.
Proof.
  induction kvs as [|[k0 v0] rest IH]; intros Hnd Hin; [by apply elem_of_nil in Hin|].
  cbn in *. apply NoDup_cons in Hnd as [Hk0 Hnd].
  apply elem_of_cons in Hin as [[= -> ->]|Hin].
  - by rewrite String.eqb_refl.
  - destruct (String.eqb_spec k0 k) as [->|_]; [|by apply IH].
    destruct Hk0. apply list_elem_of_fmap. by exists (k, v).
Qed.

(** X4.  A rule is dead when one of its pairs can never be met: a non-null
    required value that is not one of the strings of the attribute's enum
    (a misspelt or wrongly capitalised value, a number, a list), or any
    non-null value under a key that names no attribute.  Such a rule
    matches no context; the loop passes over it without an error. *)
Theorem unmatchable_rule context r conds k v :
  rule_conds r = Ok conds →
  (k, v) ∈ conds →
  v ≠ PNone →
  (∀ s, v = PStr s → s ∉ attribute_values k) →
  rule_matches (model_dump context) r = Ok false.
Proof.
  intros Hc Hin Hnn Hbad. rewrite (rule_matches_conds _ _ _ Hc). f_equal.
  apply Bool.not_true_is_false. intros H. rewrite conds_match_Forall in H.
  specialize (H k v Hin). rewrite model_dump_lookup, py_eq_true in H.
  destruct H as [[_ ?]|(s & Hs & ->)]; [done|].
  by apply (Hbad s eq_refl), (attribute_value_in_values context k).
Qed.

Lemma unmatchable_rule_witness :
  let conds := [("knowlege", PStr "novice")] in
  (rule_conds (rule conds "explanatory") = Ok conds
   ∧ ("knowlege", PStr "novice") ∈ conds
   ∧ PStr "novice" ≠ PNone
   ∧ ∀ s, PStr "novice" = PStr s → s ∉ attribute_values "knowlege")
  ∧ rule_matches (model_dump novice_negative) (rule conds "explanatory")
    = Ok false.
Proof.
  intros conds.
  assert (("knowlege", PStr "novice") ∈ conds) as Hin by (by left).
  assert (∀ s, PStr "novice" = PStr s → s ∉ attribute_values "knowlege") as Hb.
  { intros s _ Hs. by apply elem_of_nil in Hs. }
  split; [by split_and!|].
  apply (unmatchable_rule novice_negative (rule conds "explanatory") conds
           "knowlege" (PStr "novice") eq_refl Hin ltac:(discriminate) Hb).
Defined.

(** X5.  A rule is live when its constraint mapping has distinct keys and
    every required value is one of the strings of the attribute's enum: the
    context that sets exactly the constrained attributes, each to the
    member required, matches it. *)
Theorem satisfiable_rule r conds :
  rule_conds r = Ok conds →
  NoDup conds.*1 →
  (∀ k v, (k, v) ∈ conds → ∃ s, v = PStr s ∧ s ∈ attribute_values k) →
  rule_matches (model_dump (context_for conds)) r = Ok true.
Proof.
  intros Hc Hnd Hok. rewrite (rule_matches_conds _ _ _ Hc). f_equal.
  apply conds_match_Forall. intros k v Hin.
  destruct (Hok k v Hin) as (s & -> & Hs).
  pose proof (assoc_NoDup conds k (PStr s) Hnd Hin) as Ha.
  rewrite model_dump_lookup. unfold attribute_value, attribute_values in *.
  repeat case_decide; subst; [..|by apply elem_of_nil in Hs];
    cbn [context_for knowledge emotion clarity urgency stakes];
    unfold required; rewrite Ha;
    apply list_elem_of_In in Hs; cbn in Hs;
    repeat (destruct Hs as [<-|Hs]; [reflexivity|]); destruct Hs.
Qed.

Lemma satisfiable_rule_witness :
  (rule_conds (rule expert_conds "concise") = Ok expert_conds
   ∧ NoDup expert_conds.*1
   ∧ ∀ k v, (k, v) ∈ expert_conds → ∃ s, v = PStr s ∧ s ∈ attribute_values k)
  ∧ rule_matches (model_dump (context_for expert_conds))
      (rule expert_conds "concise") = Ok true.
Proof.
  assert (NoDup expert_conds.*1) as Hnd.
  { cbn. repeat (apply NoDup_cons; split;
      [intros H; repeat (apply elem_of_cons in H as [H|H]; [discriminate|]);
       by apply elem_of_nil in H|]). apply NoDup_nil_2. }
  assert (∀ k v, (k, v) ∈ expert_conds →
            ∃ s, v = PStr s ∧ s ∈ attribute_values k) as Hok.
  { intros k v Hin. unfold expert_conds in Hin.
    repeat (apply elem_of_cons in Hin as [[= -> ->]|Hin];
      [eexists; split; [reflexivity|apply list_elem_of_In; vm_compute; auto 6]|]).
    by apply elem_of_nil in Hin. }
  split; [by split_and!|].
  apply (satisfiable_rule (rule expert_conds "concise") expert_conds
           eq_refl Hnd Hok).
Defined.

(** X6.  The context with no attribute set matches exactly the rules that
    require nothing but nulls: an empty or missing constraint mapping, or
    one whose required values are all null. *)
Theorem empty_context_matches r conds :
  rule_conds r = Ok conds →
  rule_matches (model_dump no_context) r = Ok true
  ↔ ∀ k v, (k, v) ∈ conds → v = PNone.
Proof.
  intros Hc. rewrite (rule_matches_conds _ _ _ Hc). split.
  - intros [= H]. rewrite conds_match_Forall in H. intros k v Hin.
    specialize (H k v Hin).
    rewrite model_dump_lookup, no_context_unset, py_eq_true in H.
    by destruct H as [[_ ?]|(s & ? & _)].
  - intros H. f_equal. apply conds_match_Forall. intros k v Hin.
    rewrite model_dump_lookup, no_context_unset, (H k v Hin). done.
Qed.

Lemma empty_context_matches_witness :
  rule_conds null_rule = Ok []
  ∧ (rule_matches (model_dump no_context) null_rule = Ok true
     ↔ ∀ k v, (k, v) ∈ ([] : list (string * pyval)) → v = PNone).
Proof.
  split; [reflexivity|]. apply (empty_context_matches null_rule [] eq_refl).
Defined.

(** ** The context dict *)

(** X7.  [model_dump(exclude_none=True)] loses nothing: two contexts with
    the same dict are the same context, and the dict is empty only for the
    context with no attribute set. *)
Theorem model_dump_faithful c1 c2 :
  (model_dump c1 = model_dump c2 ↔ c1 = c2)
  ∧ (model_dump c1 = ∅ ↔ c1 = no_context).
Proof.
  assert (∀ a b, model_dump a = model_dump b → a = b) as Hinj.
  { intros a b H.
    assert (∀ k, attribute_value a k = attribute_value b k) as Hk
      by (intros k; by rewrite <-!model_dump_lookup, H).
    pose proof (Hk "knowledge") as H1. pose proof (Hk "emotion") as H2.
    pose proof (Hk "clarity") as H3. pose proof (Hk "urgency") as H4.
    pose proof (Hk "stakes") as H5. clear Hk H.
    destruct a as [a1 a2 a3 a4 a5], b as [b1 b2 b3 b4 b5].
    vm_compute in H1, H2, H3, H4, H5.
    assert (a1 = b1) as -> by (by destruct a1 as [[]|], b1 as [[]|]).
    assert (a2 = b2) as -> by (by destruct a2 as [[]|], b2 as [[]|]).
    assert (a3 = b3) as -> by (by destruct a3 as [[]|], b3 as [[]|]).
    assert (a4 = b4) as -> by (by destruct a4 as [[]|], b4 as [[]|]).
    assert (a5 = b5) as -> by (by destruct a5 as [[]|], b5 as [[]|]).
    reflexivity. }
  split; split; [apply Hinj|by intros ->|apply (Hinj c1 no_context)|by intros ->].
Qed.

(** ** The rule list *)

Lemma decide_loop_shift ctx_dict rules : ∀ idx,
  0 ≤ idx →
  decide_loop ctx_dict (idx + 1) rules
  = result_map shift_index (decide_loop ctx_dict idx rules).
Proof.
  induction rules as [|r rest IH]; intros idx Hidx; cbn; [done|].
  destruct (rule_matches ctx_dict r) as [[|]|e]; cbn; [| |done].
  - destruct (py_get r "style" (PStr "hybrid")) as [[| | |s| |]|]; cbn; try done.
    unfold shift_index. cbn. case_decide; [lia|done].
  - apply IH. lia.
Qed.

(** X8.  Putting a rule that does not match in front of the list changes
    nothing but the position reported: the same label or the same exception
    comes back, a matched index is one higher, the fallback index stays
    [-1]. *)
Theorem prepend_non_matching context r rules w :
  rule_matches (model_dump context) r = Ok false →
  decide_style context (PDict [("strategies", PList (r :: rules))]) w
  = (result_map shift_index
       (decide_style context (PDict [("strategies", PList rules)]) w).1, w).
Proof.
  intros Hr.
  rewrite (decide_style_supplied _ _ (r :: rules)) by (by eexists).
  rewrite (decide_style_supplied _ _ rules) by (by eexists).
  cbn. rewrite Hr. cbn. by rewrite <-decide_loop_shift.
Qed.

Lemma prepend_non_matching_witness :
  let r := rule [("stakes", PStr "high")] "careful" in
  rule_matches (model_dump expert_context) r = Ok false
  ∧ decide_style expert_context
      (PDict [("strategies", PList (r :: sample_rules))]) no_files
    = (Ok {| style := "concise"; matched_rule_index := 3 |}, no_files).
Proof.
  intros r. assert (rule_matches (model_dump expert_context) r = Ok false)
    as Hr by run.
  split; [done|].
  rewrite (prepend_non_matching expert_context r sample_rules no_files Hr).
  run.
Defined.

(** X9.  Whatever follows a catch-all rule is dead: when the rules up to
    and including one with an empty constraint mapping are rule records,
    [decide_style] returns a decision with an index no further than the
    catch-all, and the rest of the list, well formed or not, has no
    influence on it. *)
Theorem rules_after_catch_all context prefix r later later' w :
  Forall (λ r, rule_record r = true) prefix →
  rule_record r = true →
  rule_conds r = Ok [] →
  ∃ d,
    decide_style context
      (PDict [("strategies", PList (prefix ++ r :: later))]) w = (Ok d, w)
    ∧ decide_style context
        (PDict [("strategies", PList (prefix ++ r :: later'))]) w = (Ok d, w)
    ∧ 0 ≤ matched_rule_index d ≤ Z.of_nat (length prefix).
Proof.
  intros Hpre Hr Hc.
  set (i := length prefix).
  assert (∀ l, take (S i) (prefix ++ r :: l) = prefix ++ [r]) as Htake.
  { intros l. rewrite (cons_middle r), app_assoc.
    rewrite take_app_le by (rewrite length_app; cbn; lia).
    apply take_ge. rewrite length_app. cbn. lia. }
  assert (rule_matches (model_dump context) r = Ok true) as Hm
    by (by rewrite (rule_matches_conds _ _ _ Hc)).
  destruct (decide_loop_priority (model_dump context) (prefix ++ r :: later)
              i r 0) as (k & rk & Hk & _ & _ & _ & Hres).
  { rewrite Htake. apply Forall_app. split; [done|]. by constructor. }
  { by apply list_lookup_middle. }
  { done. }
  assert (∀ l, take (S k) (prefix ++ r :: l) = take (S k) (prefix ++ [r]))
    as Htk.
  { intros l. rewrite (cons_middle r), app_assoc.
    apply take_app_le. rewrite length_app. cbn. lia. }
  rewrite Htk in Hres.
  eexists. split_and!.
  - rewrite (decide_style_supplied _ _ (prefix ++ r :: later)) by (by eexists).
    rewrite <-(take_drop (S k) (prefix ++ r :: later)), Htk. by rewrite Hres.
  - rewrite (decide_style_supplied _ _ (prefix ++ r :: later')) by (by eexists).
    rewrite <-(take_drop (S k) (prefix ++ r :: later')), Htk. by rewrite Hres.
  - cbn. lia.
  - cbn. lia.
Qed.

Lemma rules_after_catch_all_witness :
  (Forall (λ r, rule_record r = true) sample_rules
   ∧ rule_record (rule [] "hybrid") = true
   ∧ rule_conds (rule [] "hybrid") = Ok [])
  ∧ ∃ d,
      decide_style no_context
        (PDict [("strategies", PList (sample_rules ++ rule [] "hybrid" :: []))])
        no_files = (Ok d, no_files)
      ∧ decide_style no_context
          (PDict [("strategies",
                   PList (sample_rules ++ rule [] "hybrid" :: [PInt 7]))])
          no_files = (Ok d, no_files)
      ∧ 0 ≤ matched_rule_index d ≤ Z.of_nat (length sample_rules).
Proof.
  assert (Forall (λ r, rule_record r = true) sample_rules) as Hp
    by (repeat constructor).
  split; [by split_and!|].
  apply (rules_after_catch_all no_context sample_rules (rule [] "hybrid")
           [] [PInt 7] no_files Hp eq_refl eq_refl).
Defined.

(** ** Configurations that are not a rule list *)

Lemma decide_style_truthy context kvs w :
  kvs ≠ [] →
  decide_style context (PDict kvs) w
  = (rules ← Ok (default (PList []) (assoc "strategies" kvs));
     items ← py_iter rules;
     decide_loop (model_dump context) 0 items, w).
Proof. intros Hne. unfold decide_style. by destruct kvs. Qed.

(** X10.  A configuration dict that has entries but no ["strategies"] key
    is an empty rule list: every context gets the fallback decision, and
    the default file is not looked at. *)
Theorem missing_strategies_key context kvs w :
  kvs ≠ [] →
  assoc "strategies" kvs = None →
  decide_style context (PDict kvs) w
  = (Ok {| style := "hybrid"; matched_rule_index := -1 |}, w).
Proof. intros Hne Hs. rewrite decide_style_truthy by done. by rewrite Hs. Qed.

Lemma missing_strategies_key_witness :
  ([("rules", PList sample_rules)] ≠ []
   ∧ assoc "strategies" [("rules", PList sample_rules)] = None)
  ∧ decide_style expert_context (PDict [("rules", PList sample_rules)]) no_files
    = (Ok {| style := "hybrid"; matched_rule_index := -1 |}, no_files).
Proof.
  split; [by split|].
  apply (missing_strategies_key expert_context [("rules", PList sample_rules)]
           no_files ltac:(discriminate) eq_refl).
Defined.

(** X11.  When the ["strategies"] entry is not a list, the loop runs over
    whatever Python iterates: a null, a boolean or a number is not iterable
    and raises [TypeError]; a non-empty mapping or string yields strings,
    and the first [rule.get] raises [AttributeError]; an empty mapping or
    string yields nothing and gives the fallback decision. *)
Theorem strategies_not_a_list context kvs v w :
  assoc "strategies" kvs = Some v →
  ((v = PNone ∨ (∃ b, v = PBool b) ∨ (∃ n, v = PInt n)) →
   decide_style context (PDict kvs) w = (Raise TypeError, w))
  ∧ (((∃ kv d, v = PDict (kv :: d)) ∨ (∃ c s, v = PStr (String c s))) →
     decide_style context (PDict kvs) w = (Raise AttributeError, w))
  ∧ ((v = PDict [] ∨ v = PStr "") →
     decide_style context (PDict kvs) w
     = (Ok {| style := "hybrid"; matched_rule_index := -1 |}, w)).
Proof.
  intros Hs. assert (kvs ≠ []) as Hne by (by intros ->).
  rewrite decide_style_truthy by done. rewrite Hs. cbn.
  split_and!.
  - by intros [->|[[b ->]|[n ->]]].
  - by intros [(kv & d & ->)|(c & s & ->)].
  - by intros [->| ->].
Qed.

Lemma strategies_not_a_list_witness :
  assoc "strategies" [("strategies", PNone)] = Some PNone
  ∧ decide_style expert_context (PDict [("strategies", PNone)]) no_files
    = (Raise TypeError, no_files).
Proof.
  split; [reflexivity|].
  apply (strategies_not_a_list expert_context [("strategies", PNone)] PNone
           no_files eq_refl). by left.
Defined.

(** ** Rules that cannot be evaluated *)

(** The loop stops with the exception of the first rule it cannot
    evaluate, when no rule before it matches. *)
Lemma decide_loop_raise ctx_dict rules : ∀ (i : nat) r e idx,
  rules !! i = Some r →
  rule_matches ctx_dict r = Raise e →
  (∀ (m : nat) r', (m < i)%nat → rules !! m = Some r' →
     rule_matches ctx_dict r' = Ok false) →
  decide_loop ctx_dict idx rules = Raise e.
Proof.
  induction rules as [|r0 rest IH]; intros i r e idx Hi Hr Hbefore; [done|].
  destruct i as [|i]; cbn in Hi.
  - injection Hi as ->. cbn. by rewrite Hr.
  - cbn. rewrite (Hbefore 0%nat r0 ltac:(lia) eq_refl). cbn.
    apply (IH i r e (idx + 1) Hi Hr).
    intros m r' Hm Hm'. apply (Hbefore (S m) r'); [lia|done].
Qed.

(** X12.  A list entry that is not a mapping, or whose ["conditions"] entry
    is a true value other than a mapping (a string, a list, a number),
    makes [decide_style] raise [AttributeError] as soon as the loop reaches
    it, that is when no rule before it matches. *)
Theorem malformed_rule_raises context config rules w (i : nat) r :
  supplies config rules →
  rules !! i = Some r →
  (∀ (m : nat) r', (m < i)%nat → rules !! m = Some r' →
     rule_matches (model_dump context) r' = Ok false) →
  ((∀ kvs, r ≠ PDict kvs)
   ∨ (∃ kvs c, r = PDict kvs ∧ assoc "conditions" kvs = Some c
        ∧ truthy c = true ∧ ∀ d, c ≠ PDict d)) →
  decide_style context config w = (Raise AttributeError, w).
Proof.
  intros Hcfg Hi Hbefore Hbad. rewrite (decide_style_supplied _ _ _ _ Hcfg).
  f_equal. apply (decide_loop_raise _ _ i r _ 0 Hi); [|done].
  unfold rule_matches, rule_conds.
  destruct Hbad as [Hnd|(kvs & c & -> & Hc & Ht & Hnd)].
  - destruct r; try done. by destruct (Hnd kvs).
  - cbn. rewrite Hc. cbn. unfold py_or. rewrite Ht.
    destruct c; try done. by destruct (Hnd kvs0).
Qed.

Lemma malformed_rule_raises_witness :
  let rules := sample_rules ++ [PStr "concise"] in
  (supplies (PDict [("strategies", PList rules)]) rules
   ∧ rules !! 4%nat = Some (PStr "concise")
   ∧ (∀ (m : nat) r', (m < 4)%nat → rules !! m = Some r' →
        rule_matches (model_dump no_context) r' = Ok false)
   ∧ ∀ kvs, PStr "concise" ≠ PDict kvs)
  ∧ decide_style no_context (PDict [("strategies", PList rules)]) no_files
    = (Raise AttributeError, no_files).
Proof.
  intros rules.
  assert (supplies (PDict [("strategies", PList rules)]) rules) as Hs
    by (by eexists).
  assert (∀ (m : nat) r', (m < 4)%nat → rules !! m = Some r' →
            rule_matches (model_dump no_context) r' = Ok false) as Hb.
  { intros m r Hm Hr.
    do 4 (destruct m as [|m]; [injection Hr as <-; run|]). lia. }
  split; [by split_and!|].
  apply (malformed_rule_raises no_context _ rules no_files 4 (PStr "concise")
           Hs eq_refl Hb). by left.
Defined.



(** ** Loading and the cache *)

(** X14.  The configuration is loaded at most once: after one successful
    [get_config] the value is in the cache, and every later call returns
    that same value without looking at the files, whatever has become of
    them. *)
Theorem get_config_cached w cfg :
  (get_config w).1 = Ok cfg →
  cache (get_config w).2 = Some cfg
  ∧ ∀ fs,
      get_config {| files := fs; cache := cache (get_config w).2 |}
      = (Ok cfg, {| files := fs; cache := cache (get_config w).2 |}).
Proof.
  unfold get_config. destruct (cache w) as [c|] eqn:Hc; cbn.
  - intros [= ->]. rewrite Hc. by split.
  - destruct (_load_config (files w) None) as [doc|e]; cbn; [|done].
    intros [= ->]. by split.
Qed.

Lemma get_config_cached_witness :
  (get_config unlabelled_world).1 = Ok unlabelled_doc
  ∧ cache (get_config unlabelled_world).2 = Some unlabelled_doc
  ∧ ∀ fs,
      get_config {| files := fs; cache := cache (get_config unlabelled_world).2 |}
      = (Ok unlabelled_doc,
         {| files := fs; cache := cache (get_config unlabelled_world).2 |}).
Proof.
  split; [reflexivity|].
  apply (get_config_cached unlabelled_world unlabelled_doc eq_refl).
Defined.

(** X15.  A load that raises is not cached: the world is left as it was,
    with an empty cache, and a later call reads the file again and succeeds
    once the default path holds a document. *)
Theorem get_config_retry w e :
  (get_config w).1 = Raise e →
  (get_config w).2 = w
  ∧ cache w = None
  ∧ ∀ fs doc,
      fs DEFAULT_CONFIG_PATH = Document doc →
      get_config {| files := fs; cache := cache (get_config w).2 |}
      = (Ok doc, {| files := fs; cache := Some doc |}).
Proof.
  unfold get_config, _load_config. destruct (cache w) as [c|] eqn:Hc; cbn; [done|].
  destruct (files w DEFAULT_CONFIG_PATH); cbn; try done;
    intros _; split_and!; try done; intros fs doc Hdoc; cbn;
    by rewrite Hc, Hdoc.
Qed.

Lemma get_config_retry_witness :
  (get_config no_files).1 = Raise FileNotFoundError
  ∧ (get_config no_files).2 = no_files
  ∧ cache no_files = None
  ∧ ∀ fs doc,
      fs DEFAULT_CONFIG_PATH = Document doc →
      get_config {| files := fs; cache := cache (get_config no_files).2 |}
      = (Ok doc, {| files := fs; cache := Some doc |}).
Proof.
  split; [reflexivity|].
  apply (get_config_retry no_files FileNotFoundError eq_refl).
Defined.

(** X16.  With a configuration in the cache, the endpoint decides by the
    cached rule list and reads no file; a call that passes a false
    [config], such as [{}], does exactly what the endpoint does and so
    ignores the dict it was given. *)
Theorem endpoint_uses_cache context w cfg rules :
  cache w = Some cfg →
  supplies cfg rules →
  decide_endpoint context w = (decide_loop (model_dump context) 0 rules, w)
  ∧ (∀ fs, (decide_endpoint context {| files := fs; cache := cache w |}).1
           = (decide_endpoint context w).1)
  ∧ ∀ config, truthy config = false →
      decide_style context config w = decide_endpoint context w.
Proof.
  intros Hc (kvs & -> & Hs).
  assert (∀ w', cache w' = Some (PDict kvs) →
            decide_endpoint context w'
            = (decide_loop (model_dump context) 0 rules, w')) as Hwarm.
  { intros w' Hc'. unfold decide_endpoint, decide_style, get_config.
    cbn. rewrite Hc'. cbn. by rewrite Hs. }
  split_and!.
  - by apply Hwarm.
  - intros fs. by rewrite !Hwarm.
  - intros config Hf. unfold decide_endpoint, decide_style. by rewrite Hf.
Qed.

Lemma endpoint_uses_cache_witness :
  let w := {| files := λ _, Absent; cache := Some sample_config |} in
  (cache w = Some sample_config ∧ supplies sample_config sample_rules)
  ∧ decide_endpoint expert_context w
    = (decide_loop (model_dump expert_context) 0 sample_rules, w)
  ∧ (∀ fs, (decide_endpoint expert_context {| files := fs; cache := cache w |}).1
           = (decide_endpoint expert_context w).1)
  ∧ ∀ config, truthy config = false →
      decide_style expert_context config w = decide_endpoint expert_context w.
Proof.
  intros w. assert (supplies sample_config sample_rules) as Hs by (by eexists).
  split; [by split|].
  apply (endpoint_uses_cache expert_context w sample_config sample_rules
           eq_refl Hs).
Defined.

(** X17.  A default file whose document is not a mapping (an empty file
    loads as null, a top-level list as a list) is loaded and cached without
    an error; the endpoint then raises [AttributeError] for every context,
    and keeps doing so whatever the file becomes, since the cached value is
    never replaced. *)
Theorem non_mapping_document_sticks w doc :
  cache w = None →
  files w DEFAULT_CONFIG_PATH = Document doc →
  (∀ kvs, doc ≠ PDict kvs) →
  (get_config w).1 = Ok doc
  ∧ ∀ context,
      decide_endpoint context w
      = (Raise AttributeError, {| files := files w; cache := Some doc |})
      ∧ ∀ fs context',
          decide_endpoint context' {| files := fs; cache := Some doc |}
          = (Raise AttributeError, {| files := fs; cache := Some doc |}).
Proof.
  intros Hc Hdoc Hnd.
  unfold decide_endpoint, decide_style, get_config, _load_config. cbn.
  rewrite Hc, Hdoc.
  destruct doc as [| | | | |kvs]; try (by destruct (Hnd kvs)); cbn;
    (split; [done|]); intros context; (split; [done|]); by intros fs context'.
Qed.

Lemma non_mapping_document_sticks_witness :
  (cache (world_with PNone) = None
   ∧ files (world_with PNone) DEFAULT_CONFIG_PATH = Document PNone
   ∧ ∀ kvs, PNone ≠ PDict kvs)
  ∧ (get_config (world_with PNone)).1 = Ok PNone
  ∧ ∀ context,
      decide_endpoint context (world_with PNone)
      = (Raise AttributeError,
         {| files := files (world_with PNone); cache := Some PNone |})
      ∧ ∀ fs context',
          decide_endpoint context' {| files := fs; cache := Some PNone |}
          = (Raise AttributeError, {| files := fs; cache := Some PNone |}).
Proof.
  split; [by split_and!|].
  apply (non_mapping_document_sticks (world_with PNone) PNone eq_refl eq_refl).
  discriminate.
Defined.

(** ** The object store: what a call allocates *)

(** X18.  The cached configuration is one shared object: once
    [get_config] has returned a reference, every later call returns the
    same reference and allocates nothing, so all callers read the very
    same dicts and lists. *)
Theorem cached_config_shared s v :
  (Heap.get_config s).1 = Ok v →
  Heap.get_config (Heap.get_config s).2 = (Ok v, (Heap.get_config s).2)
  ∧ Heap.cache (Heap.get_config s).2 = Some v.
Proof.
  unfold Heap.get_config. destruct (Heap.cache s) as [c|] eqn:Hc; cbn.
  - intros [= ->]. by rewrite Hc.
  - destruct (_load_config (Heap.files s) None) as [doc|e]; cbn; [|done].
    destruct (Heap.build doc (Heap.objects s)) as [cfg h]. cbn.
    by intros [= ->].
Qed.

Lemma cached_config_shared_witness :
  let s := {| Heap.objects := []; Heap.contexts := [expert_context];
              Heap.files := λ _, Document sample_config;
              Heap.cache := None |} in
  (Heap.get_config s).1 = Ok sample_ref
  ∧ Heap.get_config (Heap.get_config s).2
    = (Ok sample_ref, (Heap.get_config s).2)
  ∧ Heap.cache (Heap.get_config s).2 = Some sample_ref.
Proof.
  intros s. assert ((Heap.get_config s).1 = Ok sample_ref) as H by run.
  split; [done|]. apply (cached_config_shared s sample_ref H).
Defined.

Section empties.

Lemma state_eta s :
  s = {| Heap.objects := Heap.objects s ++ [];
         Heap.contexts := Heap.contexts s;
         Heap.files := Heap.files s;
         Heap.cache := Heap.cache s |}.
Proof. destruct s. cbn. by rewrite app_nil_r. Qed.

Lemma empties_unchanged {A} (m : Heap.M A) :
  (∀ s, (m s).2 = s) → allocates_empties m.
Proof.
  intros H s. exists []. split; [|constructor]. rewrite H. apply state_eta.
Qed.

Lemma empties_ret {A} (a : A) : allocates_empties (Heap.ret a).
Proof. by apply empties_unchanged. Qed.

Lemma empties_raise {A} e : allocates_empties (Heap.raise (A:=A) e).
Proof. by apply empties_unchanged. Qed.

Lemma empties_deref v : allocates_empties (Heap.deref v).
Proof.
  apply empties_unchanged. intros s. unfold Heap.deref.
  destruct v; try done. by destruct (Heap.objects s !! l).
Qed.

Lemma empties_model_dump c : allocates_empties (Heap.model_dump c).
Proof.
  apply empties_unchanged. intros s. unfold Heap.model_dump.
  by destruct (Heap.contexts s !! c).
Qed.

Lemma empties_new_StyleDecision v idx :
  allocates_empties (Heap.new_StyleDecision v idx).
Proof. apply empties_unchanged. intros s. by destruct v. Qed.

Lemma empties_alloc_dict : allocates_empties (Heap.alloc (Heap.ODict [])).
Proof. intros s. exists [Heap.ODict []]. split; [done|]. repeat constructor. Qed.

Lemma empties_alloc_list : allocates_empties (Heap.alloc (Heap.OList [])).
Proof.
  intros s. exists [Heap.OList []]. split; [done|].
  constructor; [by right|constructor].
Qed.

Lemma empties_bind {A B} (m : Heap.M A) (f : A → Heap.M B) :
  allocates_empties m → (∀ a, allocates_empties (f a)) →
  allocates_empties (mbind f m).
Proof.
  intros Hm Hf s. unfold mbind, Heap.M_bind, Heap.bind.
  destruct (Hm s) as (n1 & H1 & Hn1).
  destruct (m s) as [[a|e] s1]; cbn in *; [|by exists n1].
  destruct (Hf a s1) as (n2 & H2 & Hn2). exists (n1 ++ n2). split.
  - rewrite H2, H1. cbn. by rewrite app_assoc.
  - by apply Forall_app.
Qed.

Create HintDb empties_db.
Hint Resolve empties_ret empties_raise empties_deref empties_model_dump
  empties_new_StyleDecision empties_alloc_dict empties_alloc_list : empties_db.

Ltac solve_empties :=
  repeat first
    [ apply empties_bind; [|intros ?]
    | progress auto with empties_db
    | match goal with
      | |- allocates_empties (match ?x with _ => _ end) => destruct x
      | |- allocates_empties (if ?x then _ else _) => destruct x
      end ].

Lemma empties_truthy v : allocates_empties (Heap.truthy v).
Proof. unfold Heap.truthy. solve_empties. Qed.

Lemma empties_py_get obj key dflt :
  allocates_empties dflt → allocates_empties (Heap.py_get obj key dflt).
Proof. intros Hd. unfold Heap.py_get. solve_empties. Qed.

Lemma empties_py_items obj : allocates_empties (Heap.py_items obj).
Proof. unfold Heap.py_items. solve_empties. Qed.

Lemma empties_py_iter obj : allocates_empties (Heap.py_iter obj).
Proof. unfold Heap.py_iter. solve_empties. Qed.

Hint Resolve empties_truthy empties_py_get empties_py_items empties_py_iter
  : empties_db.




End empties.

(** ** Order inside a rule *)

(** X20.  The order of the pairs inside a constraint mapping is
    irrelevant: two rules whose mappings hold the same pairs in a different
    order give the same answer for every context.  (The order of the rules
    in the list is what decides, not the order within a rule.) *)
Theorem conditions_order_irrelevant ctx_dict r1 r2 conds1 conds2 :
  rule_conds r1 = Ok conds1 →
  rule_conds r2 = Ok conds2 →
  conds1 ≡ₚ conds2 →
  rule_matches ctx_dict r1 = rule_matches ctx_dict r2.
Proof.
  intros H1 H2 Hp.
  rewrite (rule_matches_conds _ _ _ H1), (rule_matches_conds _ _ _ H2). f_equal.
  apply Bool.eq_iff_eq_true. rewrite !conds_match_Forall.
  split; intros H k v Hin; apply H; [by rewrite Hp|by rewrite <-Hp].
Qed.

Lemma conditions_order_irrelevant_witness :
  let conds2 := [("urgency", PStr "normal"); ("knowledge", PStr "expert");
                 ("clarity", PStr "clear")] in
  (rule_conds (rule expert_conds "concise") = Ok expert_conds
   ∧ rule_conds (rule conds2 "concise") = Ok conds2
   ∧ expert_conds ≡ₚ conds2)
  ∧ rule_matches (model_dump expert_context) (rule expert_conds "concise")
    = rule_matches (model_dump expert_context) (rule conds2 "concise").
Proof.
  intros conds2.
  assert (expert_conds ≡ₚ conds2) as Hp.
  { unfold expert_conds, conds2.
    etrans; [apply perm_skip, perm_swap|apply perm_swap]. }
  split; [by split_and!|].
  apply (conditions_order_irrelevant (model_dump expert_context)
           (rule expert_conds "concise") (rule conds2 "concise")
           expert_conds conds2 eq_refl eq_refl Hp).
Defined.
